(** * Sleep tracker: interval toggling, persistence and aggregation

    A shallow embedding of the core of the sleep-tracking application:
    - [mainScreen.js]: [generateRandomSleepRanges], [saveSleepData],
      [getSleepData], [toggleSleepHour], [updateDataAndRefreshChart];
    - [graphScreen.js]: [getSleepDataForRange].

    JavaScript numbers that hold hours are modelled as [Z]; a sleep range
    [[start, end]] (a two-element array) is a pair of [Z]. *)

From stdpp Require Import gmap strings list fin_maps.
From Stdlib Require Import ZArith QArith Qround Sorted Lia.

Local Open Scope Z_scope.

(** ** Sleep ranges as values *)

(** A sleep range [[startHour, endHour]]. *)
Definition range : Type := Z * Z.

(** [hour >= start && hour < end] (mainScreen.js, line 360). *)
Definition inRange (hour : Z) (r : range) : bool :=
  (r.1 <=? hour) && (hour <? r.2).

(** Linear membership of an hour in a list of ranges. *)
Definition covered (hour : Z) (l : list range) : bool :=
  existsb (inRange hour) l.

(** ** The body of [toggleSleepHour] on values (mainScreen.js, 353-408) *)

Module Toggle.

(** First loop (lines 357-376): the first range that contains [hour] is
    removed, shrunk or split, and the scan stops.  [None] stands for
    [isInRange = false] at the end of the loop. *)
Fixpoint removeHour (hour : Z) (l : list range) : option (list range) :=
  match l with
  | [] => None
  | (start, end_) :: rest =>
      if (start <=? hour) && (hour <? end_) then
        Some (if end_ - start =? 1 then rest
              else if hour =? start then (start + 1, end_) :: rest
              else if hour =? end_ - 1 then (start, end_ - 1) :: rest
              else (start, hour) :: (hour + 1, end_) :: rest)
      else cons (start, end_) <$> removeHour hour rest
  end.

(** Second loop (lines 382-392): the first range that ends at [hour] or
    starts at [hour + 1] is extended.  [None] stands for [merged = false]. *)
Fixpoint extendRange (hour : Z) (l : list range) : option (list range) :=
  match l with
  | [] => None
  | (start, end_) :: rest =>
      if hour =? end_ then Some ((start, end_ + 1) :: rest)
      else if hour + 1 =? start then Some ((start - 1, end_) :: rest)
      else cons (start, end_) <$> extendRange hour rest
  end.

(** Lines 353-398: the list before the sort-and-merge pass. *)
Definition flipHour (hour : Z) (l : list range) : list range :=
  match removeHour hour l with
  | Some l' => l'
  | None =>
      match extendRange hour l with
      | Some l' => l'
      | None => l ++ [(hour, hour + 1)]
      end
  end.

(** [Array.prototype.sort] is stable; for the comparator
    [(a, b) => key(a) - key(b)] its result is that of a stable insertion
    sort on the key. *)
Fixpoint insertBy {A} (key : A → Z) (x : A) (l : list A) : list A :=
  match l with
  | [] => [x]
  | y :: l' => if key x <=? key y then x :: y :: l' else y :: insertBy key x l'
  end.

Definition sortBy {A} (key : A → Z) (l : list A) : list A :=
  foldr (insertBy key) [] l.

(** Line 401: [updatedRanges.sort((a, b) => a[0] - b[0])]. *)
Definition sortByStart (l : list range) : list range := sortBy fst l.

(** Lines 402-408, with [a] the range at index [i] and [rest] the ranges
    after it: while the next range starts at or before the end of [a] it is
    absorbed into [a] and [i] stays; otherwise [i] moves on. *)
Fixpoint mergeFrom (a : range) (rest : list range) : list range :=
  match rest with
  | [] => [a]
  | b :: rest' =>
      if a.2 >=? b.1 then mergeFrom (a.1, Z.max a.2 b.2) rest'
      else a :: mergeFrom b rest'
  end.

Definition mergeRanges (l : list range) : list range :=
  match l with
  | [] => []
  | a :: rest => mergeFrom a rest
  end.

(** The list that [toggleSleepHour] hands to [saveSleepData]. *)
Definition toggleRanges (hour : Z) (l : list range) : list range :=
  mergeRanges (sortByStart (flipHour hour l)).

End Toggle.

Import Toggle.

(** ** Subjects and per-subject data *)

(** The keys of [userData]. *)
Inductive userKey := baby | user1 | user2.

#[global] Instance userKey_eq_dec : EqDecision userKey.
Proof. solve_decision. Defined.

Definition keyName (u : userKey) : string :=
  match u with baby => "baby" | user1 => "user1" | user2 => "user2" end.

(** The names that [userData], an object literal (mainScreen.js, lines
    30-46), inherits from [Object.prototype].  Their values are functions
    (an object for [__proto__]): truthy, and without a [sleepData] field. *)
Definition inheritedKeys : list string :=
  ["constructor"; "hasOwnProperty"; "isPrototypeOf"; "propertyIsEnumerable";
   "toLocaleString"; "toString"; "valueOf"; "__proto__";
   "__defineGetter__"; "__defineSetter__"; "__lookupGetter__";
   "__lookupSetter__"].

(** What [userData[userKey]] yields: one of the three entries of the
    literal, or a value found on the prototype. *)
Inductive userEntry :=
  | Subject (u : userKey)
  | Inherited.

(** [userData[userKey]] for a key given as a string; [None] is
    [undefined]. *)
Definition lookupUser (k : string) : option userEntry :=
  if String.eqb k "baby" then Some (Subject baby)
  else if String.eqb k "user1" then Some (Subject user1)
  else if String.eqb k "user2" then Some (Subject user2)
  else if existsb (String.eqb k) inheritedKeys then Some Inherited
  else None.

(** An object with one field per subject. *)
Record perUser (A : Type) : Type :=
  PerUser { ofBaby : A; ofUser1 : A; ofUser2 : A }.
Arguments PerUser {A} _ _ _.
Arguments ofBaby {A} _.
Arguments ofUser1 {A} _.
Arguments ofUser2 {A} _.

Definition getU {A} (u : userKey) (o : perUser A) : A :=
  match u with baby => ofBaby o | user1 => ofUser1 o | user2 => ofUser2 o end.

Definition setU {A} (u : userKey) (v : A) (o : perUser A) : perUser A :=
  match u with
  | baby => PerUser v (ofUser1 o) (ofUser2 o)
  | user1 => PerUser (ofBaby o) v (ofUser2 o)
  | user2 => PerUser (ofBaby o) (ofUser1 o) v
  end.

(** A record of the object store: [{date, baby?, user1?, user2?}].  The
    [date] field is the key under which the record is stored. *)
Definition dayRecord : Type := perUser (option (list range)).

Definition emptyRecord : dayRecord := PerUser None None None.

(** Calendar days are numbered; [date.setDate(date.getDate() - i)] is the
    day [i] before, and the ISO date string of a day is its key. *)
Abbreviation day := Z (only parsing).

(** ** Range aggregation (graphScreen.js) *)

Module Graph.

(** [Array(24).fill(0)]. *)
Definition zeros : list Z := replicate 24 0.

(** [counts[hour]++] on a 24-entry array.  A negative index leaves the
    entries untouched; so does the model for an index past the end (there
    JavaScript would grow the array), which no range with a start hour
    below 24 reaches. *)
Definition increment (hour : Z) (counts : list Z) : list Z :=
  if hour <? 0 then counts else alter Z.succ (Z.to_nat hour) counts.

(** Lines 62-66: [let hour = start; while (hour !== end) { counts[hour]++;
    hour = (hour + 1) % 24; }].  Each unit of [fuel] pays for one test of
    the loop condition; [None] means the loop is still running when the
    fuel is spent.  JavaScript's [%] is the truncating remainder [Z.rem]. *)
Fixpoint countHours (fuel : nat) (hour end_ : Z) (counts : list Z)
  : option (list Z) :=
  match fuel with
  | O => None
  | S fuel' =>
      if hour =? end_ then Some counts
      else countHours fuel' (Z.rem (hour + 1) 24) end_ (increment hour counts)
  end.

(** Line 61: [dayData[userKey].forEach(([start, end]) => ...)]. *)
Fixpoint countRanges (fuel : nat) (l : list range) (counts : list Z)
  : option (list Z) :=
  match l with
  | [] => Some counts
  | (start, end_) :: rest =>
      match countHours fuel start end_ counts with
      | Some counts' => countRanges fuel rest counts'
      | None => None
      end
  end.

(** Lines 59-69 for one subject: [if (dayData[userKey] && Array.isArray(
    dayData[userKey]))]. *)
Definition countUser (fuel : nat) (rec : dayRecord) (u : userKey)
  (sleepCounts : perUser (list Z)) : option (perUser (list Z)) :=
  match getU u rec with
  | Some l =>
      match countRanges fuel l (getU u sleepCounts) with
      | Some counts => Some (setU u counts sleepCounts)
      | None => None
      end
  | None => Some sleepCounts
  end.

(** Lines 58-70: [if (dayData) { ['baby', 'user1', 'user2'].forEach(...) }]. *)
Definition countDay (fuel : nat) (dayData : option dayRecord)
  (sleepCounts : perUser (list Z)) : option (perUser (list Z)) :=
  match dayData with
  | None => Some sleepCounts
  | Some rec =>
      match countUser fuel rec baby sleepCounts with
      | Some c1 =>
          match countUser fuel rec user1 c1 with
          | Some c2 => countUser fuel rec user2 c2
          | None => None
          end
      | None => None
      end
  end.

(** Lines 40-74: [for (let i = days - 1; i >= 0; i--)], over the records of
    the days [endDate - i], read from the object store. *)
Fixpoint countDays (fuel : nat) (store : gmap Z dayRecord) (endDate : day)
  (days : nat) (sleepCounts : perUser (list Z)) : option (perUser (list Z)) :=
  match days with
  | O => Some sleepCounts
  | S i =>
      match countDay fuel (store !! (endDate - Z.of_nat i)) sleepCounts with
      | Some sleepCounts' => countDays fuel store endDate i sleepCounts'
      | None => None
      end
  end.

(** [getSleepDataForRange(days)], with [endDate = getCurrentDate()]. *)
Definition getSleepDataForRange (fuel : nat) (store : gmap Z dayRecord)
  (endDate : day) (days : nat) : option (perUser (list Z)) :=
  countDays fuel store endDate days (PerUser zeros zeros zeros).

End Graph.

(** ** The main screen (mainScreen.js) *)

Module Main.

(** Range arrays are JavaScript objects: [[...sleepRanges]] copies the
    outer array only, so [updatedRanges[i][0]++] writes to an array that the
    cached list still points to.  The arrays live in a store of cells; a
    list of ranges is a list of addresses.

    The object store is the native one that [openDB] of db.js opens.  A
    read through the callbacks of its request ([getSleepData],
    [getSleepDataForRange]) yields the record kept under the key, as a fresh
    copy, or [undefined]; [put] keeps a copy of a plain record under its
    key ([generateDummyData]) and throws for what it cannot copy.  Reads
    succeed; a [Date] is always passed. *)
Abbreviation loc := nat (only parsing).

Definition readCell (cells : list range) (p : loc) : range :=
  default (0, 0) (cells !! p).

Definition deref (cells : list range) (l : list loc) : list range :=
  readCell cells <$> l.

(** First loop of [toggleSleepHour] (lines 357-376) on addresses. *)
Fixpoint removeHourAt (hour : Z) (cells : list range) (l : list loc)
  : option (list range * list loc) :=
  match l with
  | [] => None
  | p :: rest =>
      let '(start, end_) := readCell cells p in
      if (start <=? hour) && (hour <? end_) then
        Some (if end_ - start =? 1 then (cells, rest)
              else if hour =? start then
                (<[p := (start + 1, end_)]> cells, p :: rest)
              else if hour =? end_ - 1 then
                (<[p := (start, end_ - 1)]> cells, p :: rest)
              else
                (<[p := (start, hour)]> (cells ++ [(hour + 1, end_)]),
                 p :: length cells :: rest))
      else prod_map id (cons p) <$> removeHourAt hour cells rest
  end.

(** Second loop (lines 382-392) on addresses. *)
Fixpoint extendRangeAt (hour : Z) (cells : list range) (l : list loc)
  : option (list range * list loc) :=
  match l with
  | [] => None
  | p :: rest =>
      let '(start, end_) := readCell cells p in
      if hour =? end_ then Some (<[p := (start, end_ + 1)]> cells, p :: rest)
      else if hour + 1 =? start then
        Some (<[p := (start - 1, end_)]> cells, p :: rest)
      else prod_map id (cons p) <$> extendRangeAt hour cells rest
  end.

(** Lines 353-398 on addresses; [updatedRanges.push([hour, hour + 1])]
    allocates a new cell. *)
Definition flipHourAt (hour : Z) (cells : list range) (l : list loc)
  : list range * list loc :=
  match removeHourAt hour cells l with
  | Some r => r
  | None =>
      match extendRangeAt hour cells l with
      | Some r => r
      | None => (cells ++ [(hour, hour + 1)], l ++ [length cells])
      end
  end.

(** Lines 402-408 on addresses: [updatedRanges[i][1] = Math.max(...)] writes
    to the cell at index [i]; the absorbed cell leaves the list only. *)
Fixpoint mergeFromAt (cells : list range) (p : loc) (rest : list loc)
  : list range * list loc :=
  match rest with
  | [] => (cells, [p])
  | q :: rest' =>
      let a := readCell cells p in
      let b := readCell cells q in
      if a.2 >=? b.1 then
        mergeFromAt (<[p := (a.1, Z.max a.2 b.2)]> cells) p rest'
      else prod_map id (cons p) (mergeFromAt cells q rest')
  end.

Definition mergeRangesAt (cells : list range) (l : list loc)
  : list range * list loc :=
  match l with
  | [] => (cells, [])
  | p :: rest => mergeFromAt cells p rest
  end.

(** Lines 354-408: from [sleepRanges] to the final [updatedRanges]. *)
Definition toggleCells (hour : Z) (cells : list range) (sleepRanges : list loc)
  : list range * list loc :=
  let '(cells1, updatedRanges) := flipHourAt hour cells sleepRanges in
  mergeRangesAt cells1 (sortBy (λ p, (readCell cells1 p).1) updatedRanges).

(** The state the operations act on. *)
Record state : Type := State {
  cells : list range;
    (* the range arrays reachable from the cache *)
  sleepData : perUser (gmap Z (list loc));
    (* [userData[userKey].sleepData[dateString]] *)
  store : gmap Z dayRecord;
    (* the object store 'sleepData'; records are stored as copies *)
  chart : list (perUser Z);
    (* [amChartRadarChart.data], one row per hour *)
  errors : list string
    (* the messages passed to [console.error], latest first *)
}.

Definition setCells (c : list range) (st : state) : state :=
  State c (sleepData st) (store st) (chart st) (errors st).

Definition setCached (u : userKey) (date : day) (l : list loc) (st : state)
  : state :=
  State (cells st) (setU u (<[date := l]> (getU u (sleepData st))) (sleepData st))
        (store st) (chart st) (errors st).

Definition setStore (s : gmap Z dayRecord) (st : state) : state :=
  State (cells st) (sleepData st) s (chart st) (errors st).

Definition setChart (c : list (perUser Z)) (st : state) : state :=
  State (cells st) (sleepData st) (store st) c (errors st).

Definition consoleError (msg : string) (st : state) : state :=
  State (cells st) (sleepData st) (store st) (chart st) (msg :: errors st).

(** [getSleepData(userKey, date)] (lines 155-203), the store being
    reachable: a cached list (an array, hence truthy even when empty) is
    returned as it is; otherwise the record is read, its ranges arrive as
    fresh copies, and the list (or a new empty list) is cached. *)
Definition getSleepData (u : userKey) (date : day) (st : state)
  : state * list loc :=
  match getU u (sleepData st) !! date with
  | Some l => (st, l)
  | None =>
      match store st !! date ≫= getU u with
      | Some ranges =>
          let l := seq (length (cells st)) (length ranges) in
          (setCached u date l (setCells (cells st ++ ranges) st), l)
      | None => (setCached u date [] st, [])
      end
  end.

(** [saveSleepData(userKey, date, sleepRanges)] (lines 128-146).  [putOk]
    tells whether [store.put] accepts [newData].  With the native store it
    never does: [await store.get(dateString)] (line 136) yields the request
    object, not the record; the request is truthy, so it becomes [newData],
    and [store.put] throws.  The [catch] block logs, and the cache
    assignment of line 141 is skipped.  Every call that the program makes
    has [putOk = false]; [putOk = true] is what lines 136-141 do over a
    store whose [get] and [put] return promises. *)
Definition saveSleepData (putOk : bool) (u : userKey) (date : day)
  (sleepRanges : list loc) (st : state) : state :=
  if putOk then
    let existingData := store st !! date in
    let newData := setU u (Some (deref (cells st) sleepRanges))
                        (default emptyRecord existingData) in
    setCached u date sleepRanges (setStore (<[date := newData]> (store st)) st)
  else consoleError "Error saving sleep data:" st.

(** How a loop over hours ends. *)
Inductive loopResult (A : Type) : Type :=
  | Finished (a : A)
  | TypeError
  | Running.
Arguments Finished {A} _.
Arguments TypeError {A}.
Arguments Running {A}.

(** [Array.from({ length: 24 }, ...)] with all three fields 0 (lines
    440-445); the [hour] label of a row is its index. *)
Definition emptyChart : list (perUser Z) := replicate 24 (PerUser 0 0 0).

(** Lines 453-457: [let currentHour = start; while (currentHour !== end) {
    chartData[currentHour][userKey] = 1; currentHour = (currentHour + 1) %
    24; }].  [chartData[currentHour]] is [undefined] outside of 0..23, and
    the assignment then throws.  [Running] means the loop is still going
    when the fuel is spent. *)
Fixpoint markHours (fuel : nat) (u : userKey) (currentHour end_ : Z)
  (chartData : list (perUser Z)) : loopResult (list (perUser Z)) :=
  match fuel with
  | O => Running
  | S fuel' =>
      if currentHour =? end_ then Finished chartData
      else if (0 <=? currentHour) && (currentHour <? 24) then
        markHours fuel' u (Z.rem (currentHour + 1) 24) end_
                  (alter (setU u 1) (Z.to_nat currentHour) chartData)
      else TypeError
  end.

(** Line 452: [for (const [start, end] of sleepData)]. *)
Fixpoint markRanges (fuel : nat) (u : userKey) (l : list range)
  (chartData : list (perUser Z)) : loopResult (list (perUser Z)) :=
  match l with
  | [] => Finished chartData
  | (start, end_) :: rest =>
      match markHours fuel u start end_ chartData with
      | Finished chartData' => markRanges fuel u rest chartData'
      | TypeError => TypeError
      | Running => Running
      end
  end.

(** How a call that may throw or loop for ever ends. *)
Inductive outcome : Type :=
  | Returns (st : state)
  | Throws (st : state)
  | Diverges.

(** Lines 448-460: [for (const userKey of ['baby', 'user1', 'user2'])]. *)
Fixpoint chartUsers (fuel : nat) (date : day) (users : list userKey)
  (chartData : list (perUser Z)) (st : state) : outcome :=
  match users with
  | [] => Returns (setChart chartData st)
  | u :: users' =>
      let '(st1, sleepData) := getSleepData u date st in
      match markRanges fuel u (deref (cells st1) sleepData) chartData with
      | Finished chartData' => chartUsers fuel date users' chartData' st1
      | TypeError => Throws st1
      | Running => Diverges
      end
  end.

(** [updateDataAndRefreshChart(date)] (lines 438-467). *)
Definition updateDataAndRefreshChart (fuel : nat) (date : day) (st : state)
  : outcome :=
  chartUsers fuel date [baby; user1; user2] emptyChart st.

(** [updateChart(date)] (lines 422-432) for a [Date] and an existing chart. *)
Definition updateChart (fuel : nat) (date : day) (st : state) : outcome :=
  updateDataAndRefreshChart fuel date st.

(** What a call evaluates to. *)
Inductive jsValue : Type :=
  | JsUndefined
  | JsArray (l : list loc).

(** Lines 352-411 of [toggleSleepHour]: the cached or stored list is
    fetched, the hour is toggled in it, and the result is saved. *)
Definition toggleAndSave (putOk : bool) (u : userKey) (hour : Z) (date : day)
  (st : state) : state :=
  let '(st1, sleepRanges) := getSleepData u date st in
  let '(cells2, updatedRanges) := toggleCells hour (cells st1) sleepRanges in
  saveSleepData putOk u date updatedRanges (setCells cells2 st1).

(** [toggleSleepHour(userKey, hour, date)] (lines 344-416).  The function
    has no [return] with an operand.  [None] means that the call does not
    come back.  The guard of line 345 lets every truthy [userData[userKey]]
    pass; for a value of the prototype, [getSleepData] then reads
    [userData[userKey].sleepData[dateString]] (line 165) off [undefined],
    and the [TypeError] is caught in line 412. *)
Definition toggleSleepHour (fuel : nat) (putOk : bool) (userKey : string)
  (hour : Z) (date : day) (st : state) : option (state * jsValue) :=
  match lookupUser userKey with
  | None => Some (consoleError "Invalid userKey:" st, JsUndefined)
  | Some Inherited =>
      Some (consoleError "Error in toggleSleepHour:" st, JsUndefined)
  | Some (Subject u) =>
      match updateChart fuel date (toggleAndSave putOk u hour date st) with
      | Returns st3 => Some (st3, JsUndefined)
      | Throws st3 =>
          Some (consoleError "Error in toggleSleepHour:" st3, JsUndefined)
      | Diverges => None
      end
  end.

(** [Math.floor(Math.random() * n)], for the value [r] that [Math.random()]
    returns. *)
Definition randomBelow (r : Q) (n : Z) : Z := Qfloor (r * inject_Z n).

(** The [else] branch of [generateRandomSleepRanges] (lines 112-116); the
    calls of [Math.random()] return [random pos], [random (pos + 1)], ... *)
Fixpoint pushRanges (random : nat → Q) (pos : nat) (numRanges : nat)
  : list range :=
  match numRanges with
  | O => []
  | S n =>
      let startHour := randomBelow (random pos) 24 in
      let duration := randomBelow (random (S pos)) 3 + 2 in
      (startHour, Z.rem (startHour + duration) 24)
        :: pushRanges random (S (S pos)) n
  end.

(** [generateRandomSleepRanges(numRanges)] (lines 102-120), returning the
    ranges and the number of random values consumed so far. *)
Definition generateRandomSleepRanges (random : nat → Q) (pos : nat)
  (numRanges : nat) : list range * nat :=
  if Nat.eqb numRanges 1 then
    let startHour := randomBelow (random pos) 4 + 22 in
    let duration := randomBelow (random (S pos)) 4 + 6 in
    (sortByStart [(Z.rem startHour 24, Z.rem (startHour + duration) 24)],
     S (S pos))
  else
    (sortByStart (pushRanges random pos numRanges),
     (pos + 2 * numRanges)%nat).

(** The loop of [generateDummyData] (lines 76-90): one record per day, put
    under the key of that day. *)
Fixpoint putDummyDays (random : nat → Q) (pos : nat) (date : day)
  (count : nat) (store : gmap Z dayRecord) : gmap Z dayRecord :=
  match count with
  | O => store
  | S n =>
      let '(b, pos1) := generateRandomSleepRanges random pos 4 in
      let '(u1, pos2) := generateRandomSleepRanges random pos1 1 in
      let '(u2, pos3) := generateRandomSleepRanges random pos2 1 in
      putDummyDays random pos3 (date + 1) n
        (<[date := PerUser (Some b) (Some u1) (Some u2)]> store)
  end.

(** [generateDummyData()] (lines 64-95): the store is cleared, sixty days
    before [currentDate] are written, and the chart is refreshed. *)
Definition generateDummyData (fuel : nat) (random : nat → Q)
  (currentDate : day) (st : state) : outcome :=
  updateChart fuel currentDate
    (setStore (putDummyDays random 0 (currentDate - 60) 60 ∅) st).

End Main.

(** ** The standing invariant of a stored list *)

(** [0 ≤ start < end ≤ 24]. *)
Definition boundsOk (r : range) : Prop := 0 ≤ r.1 ∧ r.1 < r.2 ∧ r.2 ≤ 24.

(** Sorted ascending by start; any two ranges are apart, the earlier one
    ending strictly before the later one starts (they neither overlap nor
    touch); every range is within the day. *)
Record rangesInvariant (l : list range) : Prop := RangesInvariant {
  inv_sorted : StronglySorted (λ a b : range, a.1 < b.1) l;
  inv_apart : StronglySorted (λ a b : range, a.2 < b.1) l;
  inv_bounds : Forall boundsOk l
}.

(** The same invariant in the form that follows the list: every range
    starts at or after [lo], and the next one after its end. *)
Fixpoint chain (lo : Z) (l : list range) : Prop :=
  match l with
  | [] => True
  | r :: rest => lo ≤ r.1 ∧ r.1 < r.2 ∧ r.2 ≤ 24 ∧ chain (r.2 + 1) rest
  end.

Import Graph Main.

(** ** Predicates and sample states of the statements *)

(** [Math.random()] returns a value in [[0, 1)]. *)
Definition unitInterval (random : nat → Q) : Prop :=
  ∀ n, (0 <= random n)%Q ∧ (random n < 1)%Q.

(** Both hours are hours of the day, and they differ: the circular
    stepping from the one reaches the other. *)
Definition onClock (r : range) : Prop :=
  0 <= r.1 < 24 ∧ 0 <= r.2 < 24 ∧ r.1 ≠ r.2.

(** A list of addresses without sharing, all of them allocated. *)
Definition distinctCells (cells : list range) (l : list nat) : Prop :=
  NoDup l ∧ Forall (λ p, (p < length cells)%nat) l.

(** How a phase of the toggle changes the cells: the new list is again
    without sharing, it is made of old addresses of the list and of newly
    allocated ones, and cells outside the list are untouched. *)
Record evolves (cells : list range) (l : list nat)
    (cells' : list range) (l' : list nat) : Prop := Evolves {
  ev_distinct : distinctCells cells' l';
  ev_grow : (length cells ≤ length cells')%nat;
  ev_locs : ∀ q, q ∈ l' → q ∈ l ∨ (length cells ≤ q)%nat;
  ev_frame : ∀ q, q ∉ l → (q < length cells)%nat → cells' !! q = cells !! q
}.

(** Every cached list is without sharing among its cells. *)
Definition cacheOk (st : state) : Prop :=
  ∀ u date l, getU u (sleepData st) !! date = Some l →
              distinctCells (cells st) l.

(** The ranges that [getSleepData(userKey, date)] returns. *)
Definition visible (u : userKey) (date : day) (st : state) : list range :=
  deref (cells (getSleepData u date st).1) (getSleepData u date st).2.

(** The ranges that the object store holds. *)
Definition stored (u : userKey) (date : day) (st : state)
  : option (list range) :=
  store st !! date ≫= getU u.

(** Both hours of the range are hours of the day. *)
Definition onDay (r : range) : Prop := 0 <= r.1 < 24 ∧ 0 <= r.2 < 24.

(** No range in a cell nor in the record of [date] reaches hour 24. *)
Definition clockOk (date : day) (st : state) : Prop :=
  Forall onDay (cells st)
  ∧ ∀ u l, stored u date st = Some l → Forall onDay l.

(** What reading does to the state: the store is as before, cells are only
    added, and cached lists stay cached. *)
Record extends (st st' : state) : Prop := Extends {
  ext_store : store st' = store st;
  ext_cells : ∃ more, cells st' = cells st ++ more;
  ext_cache : ∀ u date l, getU u (sleepData st) !! date = Some l →
                          getU u (sleepData st') !! date = Some l
}.

(** The state before anything is cached or stored. *)
Definition emptyState : state :=
  State [] (PerUser ∅ ∅ ∅) ∅ emptyChart [].

(** The calls [toggleSleepHour(userKey, hour, date)] for the hours of the
    list, one after the other, as the program makes them (every write
    throws); [None] when one of the calls does not come back. *)
Fixpoint toggleCalls (fuel : nat) (u : userKey) (date : day)
  (hours : list Z) (st : state) : option state :=
  match hours with
  | [] => Some st
  | hour :: hours' =>
      match toggleSleepHour fuel false (keyName u) hour date st with
      | Some (st', _) => toggleCalls fuel u date hours' st'
      | None => None
      end
  end.

(** A store that holds [[[23, 24]]] for the baby on day 0: within the
    invariant of the specification, though the program writes no such
    record (the ends that [generateRandomSleepRanges] writes are below
    24). *)
Definition lastHourStore : gmap Z dayRecord :=
  {[ 0 := PerUser (Some [(23, 24)]) None None ]}.

(** The store that holds [[[20, 23]]] for the baby on day 0. *)
Definition eveningState : state :=
  setStore {[ 0 := PerUser (Some [(20, 23)]) None None ]} emptyState.

(** The store that holds [[[1, 3], [5, 6]]] for the baby on day 0. *)
Definition twoNapsState : state :=
  setStore {[ 0 := PerUser (Some [(1, 3); (5, 6)]) None None ]} emptyState.

(** The list that [toggleSleepHour] passes to [saveSleepData] (line 411):
    the final [updatedRanges]. *)
Definition handedToSave (u : userKey) (hour : Z) (date : day) (st : state)
  : list range :=
  let '(st1, sleepRanges) := getSleepData u date st in
  let '(cells2, updatedRanges) := toggleCells hour (cells st1) sleepRanges in
  deref cells2 updatedRanges.

(** The record [{baby: [[0, 2]]}]. *)
Definition napRecord : dayRecord := PerUser (Some [(0, 2)]) None None.

(** Seven days, numbered 0 to 6, each with the record above. *)
Definition napWeek : gmap Z dayRecord :=
  list_to_map ((λ i, (Z.of_nat i, napRecord)) <$> seq 0 7).

(** A random source that returns 0.375 at every call. *)
Definition threeEighths : nat → Q := λ _, (3 # 8)%Q.

(** A random source under which every generated list satisfies the
    invariant: the twelve values drawn per day give the baby the ranges
    [[1, 3]], [[5, 7]], [[9, 11]], [[13, 15]] and each adult [[0, 6]]. *)
Definition tidyRandom : nat → Q := λ n,
  match (n mod 12)%nat with
  | 0%nat => (3 # 48)%Q
  | 2%nat => (11 # 48)%Q
  | 4%nat => (19 # 48)%Q
  | 6%nat => (27 # 48)%Q
  | 8%nat | 10%nat => (1 # 2)%Q
  | _ => 0%Q
  end.

(** The store that [generateDummyData] leaves with this source when the
    current date is day 30. *)
Definition tidyStore : gmap Z dayRecord :=
  putDummyDays tidyRandom 0 (30 - 60) 60 ∅.

(** The store that holds [[[5, 7], [8, 10]]] for the baby on day 0. *)
Definition scenario4State : state :=
  setStore {[ 0 := PerUser (Some [(5, 7); (8, 10)]) None None ]} emptyState.

(** The store that holds [[[5, 9]]] for the baby on day 0. *)
Definition nightState : state :=
  setStore {[ 0 := PerUser (Some [(5, 9)]) None None ]} emptyState.

(** The ranges of a subject on a day, as the store has them. *)
Definition rangesOn (s : gmap Z dayRecord) (u : userKey) (date : day)
  : list range :=
  default [] (s !! date ≫= getU u).

(** Daily occupancy on values: what lines 448-460 of
    [updateDataAndRefreshChart] compute when the three lists are those of
    the store. *)
Definition occupancy (fuel : nat) (s : gmap Z dayRecord) (date : day)
  : loopResult (list (perUser Z)) :=
  match markRanges fuel baby (rangesOn s baby date) emptyChart with
  | Finished c1 =>
      match markRanges fuel user1 (rangesOn s user1 date) c1 with
      | Finished c2 => markRanges fuel user2 (rangesOn s user2 date) c2
      | r => r
      end
  | r => r
  end.

(** One entry of the occupancy of a day. *)
Definition occupancyAt (fuel : nat) (s : gmap Z dayRecord) (date : day)
  (u : userKey) (h : nat) : option Z :=
  match occupancy fuel s date with
  | Finished c => getU u <$> c !! h
  | _ => None
  end.

(** The sum of these entries over the [n] days that end at [endDate]. *)
Fixpoint sumOccupancy (fuel : nat) (s : gmap Z dayRecord) (endDate : day)
  (n : nat) (u : userKey) (h : nat) : option Z :=
  match n with
  | O => Some 0
  | S i =>
      match occupancyAt fuel s (endDate - Z.of_nat i) u h,
            sumOccupancy fuel s endDate i u h with
      | Some x, Some y => Some (x + y)
      | _, _ => None
      end
  end.

(** The ranges of the [n] days that end at [endDate] satisfy the invariant
    and none of them reaches hour 24. *)
Definition windowBefore24 (s : gmap Z dayRecord) (endDate : day) (n : nat)
  : Prop :=
  ∀ i u, (i < n)%nat →
         rangesInvariant (rangesOn s u (endDate - Z.of_nat i))
         ∧ Forall (λ r : range, r.2 ≤ 23) (rangesOn s u (endDate - Z.of_nat i)).

(** ** Further predicates and sample states *)

(** No two cached lists share a cell. *)
Definition cacheSeparate (st : state) : Prop :=
  ∀ u d l u' d' l',
    (u, d) ≠ (u', d') →
    getU u (sleepData st) !! d = Some l →
    getU u' (sleepData st) !! d' = Some l' →
    ∀ p, p ∈ l → p ∉ l'.

(** The state that a failed toggle of hour 7 leaves when [[[5, 7], [8, 10]]]
    was cached: the store has the old list, the cached list is made of the
    cells [[5, 10]] and [[8, 10]]. *)
Definition staleState : state :=
  State [(5, 10); (8, 10)]
        (PerUser {[ 0 := [0; 1]%nat ]} ∅ ∅)
        {[ 0 := PerUser (Some [(5, 7); (8, 10)]) None None ]}
        emptyChart
        ["Error saving sleep data:"].

(** The state after the lists of the baby and of user1 have been read for
    day 0. *)
Definition twoSubjectsState : state :=
  State [(5, 9); (1, 3)]
        (PerUser {[ 0 := [0%nat] ]} {[ 0 := [1%nat] ]} ∅)
        {[ 0 := PerUser (Some [(5, 9)]) (Some [(1, 3)]) None ]}
        emptyChart
        [].

(** What the loop writes for one day: four ranges for the baby and one for
    each adult, each list sorted by start hour. *)
Definition dummyShape (rec : dayRecord) : Prop :=
  ∃ b u1 u2,
    rec = PerUser (Some b) (Some u1) (Some u2)
    ∧ length b = 4%nat ∧ length u1 = 1%nat ∧ length u2 = 1%nat
    ∧ StronglySorted (λ a b : range, a.1 ≤ b.1) b.

(** The hours that the stepping [hour = (hour + 1) % 24] visits from the
    start of a range until it meets the end: from [start] up to [end] when
    [start ≤ end], and from [start] to 23 and on from 0 up to [end]
    otherwise. *)
Definition onCircle (hour : Z) (r : range) : bool :=
  (0 <=? hour) && (hour <? 24)
  && (if r.1 <=? r.2 then (r.1 <=? hour) && (hour <? r.2)
      else (r.1 <=? hour) || (hour <? r.2)).

(** How many ranges of the list visit the hour. *)
Fixpoint circleCount (hour : Z) (l : list range) : Z :=
  match l with
  | [] => 0
  | r :: rest => Z.b2z (onCircle hour r) + circleCount hour rest
  end.

(** The same over the [n] days that end at [endDate]. *)
Fixpoint windowCount (s : gmap Z dayRecord) (u : userKey) (endDate : day)
  (n : nat) (hour : Z) : Z :=
  match n with
  | O => 0
  | S i =>
      circleCount hour (rangesOn s u (endDate - Z.of_nat i))
      + windowCount s u endDate i hour
  end.

(** The store that the test-data generation leaves when [Math.random()]
    returns 0.375 at every call and the current date is day 30. *)
Definition generatedStore : gmap Z dayRecord :=
  putDummyDays threeEighths 0 (30 - 60) 60 ∅.

(** ** Hour labels of the chart rows (mainScreen.js, 256-257 and 440-441)
       and their reading at a click (301 and 308) *)

From Stdlib Require DecimalString.

Module Labels.
Import Stdlib.Strings.Ascii.

(** [i.toString()] for an array index: its decimal digits. *)
Definition toString (i : nat) : string :=
  DecimalString.NilEmpty.string_of_uint (Nat.to_uint i).

Fixpoint repeatChar (n : nat) (c : ascii) : string :=
  match n with
  | O => EmptyString
  | S k => String c (repeatChar k c)
  end.

(** [s.padStart(targetLength, c)] for a filler [c] of one character. *)
Definition padStart (targetLength : nat) (c : ascii) (s : string) : string :=
  String.append (repeatChar (targetLength - String.length s) c) s.

(** The [hour] fields of
    [Array.from({ length: 24 }, (_, i) => ({ hour: i.toString().padStart(2, '0'), ... }))]. *)
Definition hourLabels : list string :=
  (λ i, padStart 2 "0" (toString i)) <$> seq 0 24.

(** The white space and line terminators that [parseInt] skips, among the
    ASCII characters: TAB, LF, VT, FF, CR and the space. *)
Definition isWhiteSpace (c : ascii) : bool :=
  let n := nat_of_ascii c in
  (n =? 32)%nat || ((9 <=? n)%nat && (n <=? 13)%nat).

Fixpoint trimStart (s : string) : string :=
  match s with
  | EmptyString => EmptyString
  | String c rest => if isWhiteSpace c then trimStart rest else s
  end.

(** The value of a digit: [0-9], and [a-z] or [A-Z] for 10 to 35. *)
Definition digitValue (c : ascii) : option Z :=
  let n := Z.of_nat (nat_of_ascii c) in
  if (48 <=? n) && (n <=? 57) then Some (n - 48)
  else if (97 <=? n) && (n <=? 122) then Some (n - 97 + 10)
  else if (65 <=? n) && (n <=? 90) then Some (n - 65 + 10)
  else None.

(** The longest prefix of digits of the radix, read as a number; [acc] is
    [None] as long as no digit has been read. *)
Fixpoint parseDigits (radix : Z) (s : string) (acc : option Z) : option Z :=
  match s with
  | EmptyString => acc
  | String c rest =>
      match digitValue c with
      | Some d =>
          if d <? radix
          then parseDigits radix rest (Some (default 0 acc * radix + d))
          else acc
      | None => acc
      end
  end.

(** [parseInt(s)] with no radix given: leading white space is skipped, a
    sign is read, [0x] or [0X] selects radix 16 and anything else radix 10,
    and the digits that follow are read up to the first character that is
    none; [None] stands for [NaN], the result when no digit follows. *)
Definition parseInt (s : string) : option Z :=
  let s1 := trimStart s in
  let '(sign, s2) :=
    match s1 with
    | String c rest =>
        if Ascii.eqb c "-" then (-1, rest)
        else if Ascii.eqb c "+" then (1, rest)
        else (1, s1)
    | EmptyString => (1, s1)
    end in
  let '(radix, s3) :=
    match s2 with
    | String c (String x rest) =>
        if Ascii.eqb c "0" && (Ascii.eqb x "x" || Ascii.eqb x "X")
        then (16, rest) else (10, s2)
    | _ => (10, s2)
    end in
  Z.mul sign <$> parseDigits radix s3 None.

End Labels.

(** * Properties *)

(** ** Sorting *)

Section Sorting.
Context {A : Type} (key : A → Z).

Lemma insertBy_perm x l : insertBy key x l ≡ₚ x :: l.
Proof.
  induction l as [|y l IH]; simpl; [done|].
  destruct (key x <=? key y); [done|].
  rewrite IH. apply Permutation_swap.
Qed.

Lemma sortBy_perm l : sortBy key l ≡ₚ l.
Proof.
  induction l as [|x l IH]; simpl; [done|].
  rewrite insertBy_perm. by f_equiv.
Qed.

Lemma insertBy_sorted x l :
  StronglySorted (λ a b, key a ≤ key b) l →
  StronglySorted (λ a b, key a ≤ key b) (insertBy key x l).
Proof.
  induction 1 as [|y l Hs IH Hy]; simpl.
  - repeat constructor.
  - destruct (Z.leb_spec (key x) (key y)).
    + constructor; [by constructor|].
      constructor; [done|].
      eapply Forall_impl; [exact Hy|]. simpl. lia.
    + constructor; [done|].
      rewrite insertBy_perm. constructor; [lia|done].
Qed.

Lemma sortBy_sorted l : StronglySorted (λ a b, key a ≤ key b) (sortBy key l).
Proof.
  induction l as [|x l IH]; simpl; [constructor|].
  by apply insertBy_sorted.
Qed.

(** A stable sort leaves a sorted list as it is. *)
Lemma sortBy_id l :
  StronglySorted (λ a b, key a ≤ key b) l → sortBy key l = l.
Proof.
  induction 1 as [|x l Hs IH Hx]; simpl; [done|].
  rewrite IH. destruct Hx as [|y l Hy _]; simpl; [done|].
  destruct (Z.leb_spec (key x) (key y)); [done|lia].
Qed.

Lemma sortBy_fmap {B} (f : B → A) (l : list B) :
  f <$> sortBy (key ∘ f) l = sortBy key (f <$> l).
Proof.
  unfold sortBy. induction l as [|x l IH]; csimpl; [done|].
  rewrite <- IH. generalize (foldr (insertBy (key ∘ f)) [] l). intros s.
  induction s as [|y s IHs]; csimpl; [done|].
  destruct (key (f x) <=? key (f y)); csimpl; [done|]. by rewrite IHs.
Qed.
End Sorting.

(** ** Coverage and the invariant *)

(** Case analysis on the comparisons that occur in the goal. *)
Ltac split_leb :=
  match goal with |- context [(?x <=? ?y)] => destruct (Z.leb_spec x y) end.
Ltac split_ltb :=
  match goal with |- context [(?x <? ?y)] => destruct (Z.ltb_spec x y) end.
Ltac split_eqb :=
  match goal with |- context [(?x =? ?y)] => destruct (Z.eqb_spec x y) end.
Ltac cmp :=
  rewrite ?Z.geb_leb;
  repeat first [split_leb | split_ltb | split_eqb];
  simpl; try done; try lia.

Lemma covered_cons g r l : covered g (r :: l) = inRange g r || covered g l.
Proof. reflexivity. Qed.

Lemma covered_app g l1 l2 :
  covered g (l1 ++ l2) = covered g l1 || covered g l2.
Proof. apply existsb_app. Qed.

Lemma covered_perm g l l' : l ≡ₚ l' → covered g l = covered g l'.
Proof.
  induction 1 as [|x l l' _ IH|x y l|l1 l2 l3 _ IH1 _ IH2].
  - done.
  - by rewrite !covered_cons, IH.
  - rewrite !covered_cons. by destruct (inRange g x), (inRange g y).
  - congruence.
Qed.

Lemma chain_mono lo lo' l : lo' ≤ lo → chain lo l → chain lo' l.
Proof.
  destruct l as [|r l]; simpl; [done|].
  intros ? (? & ? & ? & ?). split_and!; (lia || done).
Qed.

Lemma chain_Forall lo l :
  chain lo l → Forall (λ r : range, lo ≤ r.1 ∧ r.1 < r.2 ∧ r.2 ≤ 24) l.
Proof.
  revert lo. induction l as [|r l IH]; intros lo; simpl; [constructor|].
  intros (H1 & H2 & H3 & H4). constructor; [lia|].
  eapply Forall_impl; [exact (IH _ H4)|]. simpl. lia.
Qed.

Lemma chain_not_covered g lo l : chain lo l → g < lo → covered g l = false.
Proof.
  intros Hc Hg. apply chain_Forall in Hc.
  induction Hc as [|r l Hr _ IH]; [done|].
  rewrite covered_cons, IH, orb_false_r. unfold inRange. cmp.
Qed.

Lemma chain_of_parts lo l :
  Forall (λ r : range, lo ≤ r.1) l →
  StronglySorted (λ a b : range, a.2 < b.1) l →
  Forall boundsOk l →
  chain lo l.
Proof.
  revert lo. induction l as [|r l IH]; intros lo Hlo Hap Hb; simpl; [done|].
  apply Forall_cons in Hlo as [Hr _].
  apply StronglySorted_inv in Hap as [Hap Hnext].
  apply Forall_cons in Hb as [(? & ? & ?) Hb].
  repeat split; try lia.
  apply IH; [|done..].
  eapply Forall_impl; [exact Hnext|]. simpl. lia.
Qed.

Lemma chain_sound lo l : 0 ≤ lo → chain lo l → rangesInvariant l.
Proof.
  revert lo. induction l as [|r l IH]; intros lo Hlo Hc.
  { split; constructor. }
  destruct Hc as (H1 & H2 & H3 & Hc).
  destruct (IH (r.2 + 1) ltac:(lia) Hc) as [Hs Ha Hb].
  apply chain_Forall in Hc.
  split.
  - constructor; [done|]. eapply Forall_impl; [exact Hc|]. simpl. lia.
  - constructor; [done|]. eapply Forall_impl; [exact Hc|]. simpl. lia.
  - constructor; [|done]. unfold boundsOk. lia.
Qed.

Lemma chain_invariant l : chain 0 l ↔ rangesInvariant l.
Proof.
  split; [by apply chain_sound|].
  intros [_ Ha Hb]. apply chain_of_parts; [|done..].
  eapply Forall_impl; [exact Hb|]. unfold boundsOk. simpl. lia.
Qed.

(** ** The merge pass *)

Lemma mergeFrom_covered g rest a :
  StronglySorted (λ a b : range, a.1 ≤ b.1) (a :: rest) →
  covered g (mergeFrom a rest) = covered g (a :: rest).
Proof.
  revert a. induction rest as [|b rest IH]; intros a Hs; [done|].
  apply StronglySorted_inv in Hs as [Hs Ha].
  apply StronglySorted_inv in Hs as [Hs Hb].
  apply Forall_cons in Ha as [Hab Ha].
  simpl. rewrite Z.geb_leb. destruct (Z.leb_spec b.1 a.2).
  - rewrite IH.
    + rewrite !covered_cons, orb_assoc. f_equal.
      unfold inRange. simpl. cmp.
    + constructor; [done|]. done.
  - rewrite covered_cons, IH; [done|]. by constructor.
Qed.

Lemma mergeRanges_covered g l :
  StronglySorted (λ a b : range, a.1 ≤ b.1) l →
  covered g (mergeRanges l) = covered g l.
Proof. destruct l; [done|]. apply mergeFrom_covered. Qed.

Lemma mergeFrom_chain rest a lo :
  lo ≤ a.1 → a.1 < a.2 → a.2 ≤ 24 →
  Forall boundsOk rest →
  StronglySorted (λ a b : range, a.1 ≤ b.1) (a :: rest) →
  chain lo (mergeFrom a rest).
Proof.
  revert a lo. induction rest as [|b rest IH]; intros a lo H1 H2 H3 Hb Hs.
  { simpl. lia. }
  apply StronglySorted_inv in Hs as [Hs Ha].
  apply Forall_cons in Ha as [Hab Ha].
  apply Forall_cons in Hb as [(? & ? & ?) Hb].
  simpl. rewrite Z.geb_leb. destruct (Z.leb_spec b.1 a.2).
  - apply IH; simpl; try lia; [done|].
    apply StronglySorted_inv in Hs as [Hs _]. by constructor.
  - simpl. repeat split; try lia. apply IH; try lia; done.
Qed.

Lemma mergeRanges_invariant l :
  Forall boundsOk l →
  StronglySorted (λ a b : range, a.1 ≤ b.1) l →
  rangesInvariant (mergeRanges l).
Proof.
  intros Hb Hs. apply chain_invariant. destruct l as [|a rest]; [done|].
  apply Forall_cons in Hb as [(? & ? & ?) Hb].
  by apply mergeFrom_chain.
Qed.

(** ** The two scanning loops *)

Lemma removeHour_None h l : removeHour h l = None ↔ covered h l = false.
Proof.
  induction l as [|[s e] l IH]; simpl; [done|].
  unfold inRange. simpl. destruct ((s <=? h) && (h <? e)); simpl; [done|].
  rewrite <- IH. by destruct (removeHour h l).
Qed.

Lemma removeHour_bounds h l l' :
  removeHour h l = Some l' → Forall boundsOk l → Forall boundsOk l'.
Proof.
  revert l'. induction l as [|[s e] l IH]; intros l'; simpl; [done|].
  intros Hr Hb. apply Forall_cons in Hb as [(? & ? & ?) Hb]. simpl in *.
  destruct (Z.leb_spec s h), (Z.ltb_spec h e); simpl in Hr;
    try (destruct (removeHour h l) as [l''|]; [|done];
         injection Hr as <-; constructor; [done|by apply IH]).
  injection Hr as <-.
  cmp; repeat (constructor; [unfold boundsOk; simpl; lia|]); done.
Qed.

Lemma extendRange_bounds h l l' :
  0 <= h < 24 →
  extendRange h l = Some l' → Forall boundsOk l → Forall boundsOk l'.
Proof.
  intros Hh. revert l'. induction l as [|[s e] l IH]; intros l'; simpl; [done|].
  intros Hr Hb. apply Forall_cons in Hb as [(? & ? & ?) Hb]. simpl in *.
  destruct (Z.eqb_spec h e).
  { injection Hr as <-. constructor; [unfold boundsOk; simpl; lia|done]. }
  destruct (Z.eqb_spec (h + 1) s).
  { injection Hr as <-. constructor; [unfold boundsOk; simpl; lia|done]. }
  destruct (extendRange h l) as [l''|]; [|done].
  injection Hr as <-. constructor; [done|by apply IH].
Qed.

Lemma flipHour_bounds h l :
  0 <= h < 24 → Forall boundsOk l → Forall boundsOk (flipHour h l).
Proof.
  intros Hh Hb. unfold flipHour.
  destruct (removeHour h l) eqn:Hr; [by eapply removeHour_bounds|].
  destruct (extendRange h l) eqn:He; [by eapply extendRange_bounds|].
  apply Forall_app. split; [done|].
  constructor; [unfold boundsOk; simpl; lia|constructor].
Qed.

(** Within an invariant list the first loop takes [hour] out of the covered
    hours and leaves every other hour as it was. *)
Lemma removeHour_covered h lo l l' g :
  chain lo l → removeHour h l = Some l' →
  covered g l' = covered g l && negb (g =? h).
Proof.
  revert lo l'. induction l as [|[s e] l IH]; intros lo l' Hc Hr; [done|].
  destruct Hc as (H1 & H2 & H3 & Hc). simpl in H1, H2, H3, Hc, Hr.
  rewrite covered_cons. unfold inRange at 1. simpl.
  destruct (Z.leb_spec s h), (Z.ltb_spec h e); simpl in Hr;
    try (destruct (removeHour h l) as [l''|] eqn:Hl; [|done];
         injection Hr as <-; rewrite covered_cons, (IH _ _ Hc eq_refl);
         unfold inRange; simpl; destruct (covered g l); cmp).
  injection Hr as <-.
  assert ((g =? h) = true → covered g l = false) as Hout.
  { intros ->%Z.eqb_eq. eapply chain_not_covered; [done|lia]. }
  destruct (Z.eqb_spec (e - s) 1); [|destruct (Z.eqb_spec h s);
    [|destruct (Z.eqb_spec h (e - 1))]];
    rewrite ?covered_cons; unfold inRange; simpl.
  all: destruct (Z.eqb_spec g h) as [Heq|Hne].
  all: try (rewrite Hout by done; subst g).
  all: first [destruct (covered g l); cmp | cmp].
Qed.

(** Within an invariant list that does not cover [hour], the second loop
    adds [hour] to the covered hours and nothing else. *)
Lemma extendRange_covered h lo l l' g :
  chain lo l → extendRange h l = Some l' →
  covered g l' = covered g l || (g =? h).
Proof.
  revert lo l'. induction l as [|[s e] l IH]; intros lo l'; simpl; [done|].
  intros (H1 & H2 & H3 & Hc) Hr.
  destruct (Z.eqb_spec h e).
  { injection Hr as <-. rewrite !covered_cons. unfold inRange. simpl.
    destruct (covered g l); cmp. }
  destruct (Z.eqb_spec (h + 1) s).
  { injection Hr as <-. rewrite !covered_cons. unfold inRange. simpl.
    destruct (covered g l); cmp. }
  destruct (extendRange h l) as [l''|] eqn:Hl; [|done].
  injection Hr as <-. rewrite !covered_cons, (IH _ _ Hc eq_refl).
  by rewrite orb_assoc.
Qed.

Lemma flipHour_covered h l g :
  rangesInvariant l →
  covered g (flipHour h l) =
    if g =? h then negb (covered h l) else covered g l.
Proof.
  intros Hc%chain_invariant. unfold flipHour.
  destruct (removeHour h l) as [l'|] eqn:Hr.
  - rewrite (removeHour_covered _ _ _ _ _ Hc Hr).
    destruct (Z.eqb_spec g h) as [->|]; simpl; [|by rewrite andb_true_r].
    rewrite andb_false_r. symmetry. apply negb_false_iff.
    destruct (covered h l) eqn:Hcov; [done|].
    apply removeHour_None in Hcov. congruence.
  - apply removeHour_None in Hr.
    assert (covered g (match extendRange h l with
                       | Some l' => l' | None => l ++ [(h, h + 1)] end)
            = covered g l || (g =? h)) as ->.
    { destruct (extendRange h l) as [l'|] eqn:He.
      - by eapply extendRange_covered.
      - rewrite covered_app. f_equal. unfold covered, inRange. simpl. cmp. }
    destruct (Z.eqb_spec g h) as [->|]; [|by rewrite orb_false_r].
    by rewrite Hr.
Qed.

(** ** One toggle on values *)

Lemma sortByStart_sorted l :
  StronglySorted (λ a b : range, a.1 ≤ b.1) (sortByStart l).
Proof. apply (sortBy_sorted fst). Qed.

(** Whatever the list, as long as each of its ranges lies within the day,
    the sort-and-merge pass leaves an invariant list. *)
Lemma toggleRanges_invariant h l :
  0 <= h < 24 → Forall boundsOk l → rangesInvariant (toggleRanges h l).
Proof.
  intros Hh Hb. apply mergeRanges_invariant; [|apply sortByStart_sorted].
  unfold sortByStart. rewrite sortBy_perm. by apply flipHour_bounds.
Qed.

Lemma toggleRanges_covered h l g :
  rangesInvariant l →
  covered g (toggleRanges h l) =
    if g =? h then negb (covered h l) else covered g l.
Proof.
  intros Hl. unfold toggleRanges.
  rewrite mergeRanges_covered by apply sortByStart_sorted.
  rewrite (covered_perm _ _ (flipHour h l)) by apply sortBy_perm.
  by apply flipHour_covered.
Qed.

(** An invariant list is determined by the hours it covers. *)
Lemma chain_canonical lo l1 l2 :
  chain lo l1 → chain lo l2 →
  (∀ g, covered g l1 = covered g l2) → l1 = l2.
Proof.
  assert (∀ lo (r : range) (l : list range),
            chain lo (r :: l) → covered r.1 (r :: l) = true) as Hhd.
  { intros ? [s e] l (_ & ? & _). rewrite covered_cons. unfold inRange.
    simpl in *. cmp. }
  revert lo l2. induction l1 as [|[s1 e1] l1 IH]; intros lo [|[s2 e2] l2] H1 H2 Hg.
  - done.
  - specialize (Hg s2). pose proof (Hhd _ _ _ H2) as Hx. cbn [fst] in Hx.
    rewrite Hx in Hg. done.
  - specialize (Hg s1). pose proof (Hhd _ _ _ H1) as Hx. cbn [fst] in Hx.
    rewrite Hx in Hg. done.
  - pose proof (Hhd _ _ _ H1) as Hs1. pose proof (Hhd _ _ _ H2) as Hs2.
    cbn [fst] in Hs1, Hs2.
    destruct H1 as (A1 & B1 & C1 & H1), H2 as (A2 & B2 & C2 & H2).
    cbn [fst snd] in *.
    assert (s1 = s2) as <-.
    { destruct (Z.lt_trichotomy s1 s2) as [Hlt|[Heq|Hlt]]; [|done|].
      - rewrite Hg, covered_cons in Hs1.
        rewrite (chain_not_covered s1 _ _ H2) in Hs1 by lia.
        unfold inRange in Hs1. simpl in Hs1. revert Hs1. cmp.
      - rewrite <- Hg, covered_cons in Hs2.
        rewrite (chain_not_covered s2 _ _ H1) in Hs2 by lia.
        unfold inRange in Hs2. simpl in Hs2. revert Hs2. cmp. }
    assert (e1 = e2) as <-.
    { destruct (Z.lt_trichotomy e1 e2) as [Hlt|[Heq|Hlt]]; [|done|].
      - specialize (Hg e1). rewrite !covered_cons in Hg.
        rewrite (chain_not_covered e1 _ _ H1) in Hg by lia.
        unfold inRange in Hg. simpl in Hg. revert Hg. cmp.
      - specialize (Hg e2). rewrite !covered_cons in Hg.
        rewrite (chain_not_covered e2 _ _ H2) in Hg by lia.
        unfold inRange in Hg. simpl in Hg. revert Hg. cmp. }
    f_equal. apply (IH (e1 + 1)); [done..|].
    intros g. specialize (Hg g). rewrite !covered_cons in Hg.
    destruct (Z.lt_ge_cases g (e1 + 1)).
    + by rewrite !(chain_not_covered g (e1 + 1)).
    + revert Hg. unfold inRange. simpl. cmp.
Qed.

Lemma rangesInvariant_canonical l1 l2 :
  rangesInvariant l1 → rangesInvariant l2 →
  (∀ g, covered g l1 = covered g l2) → l1 = l2.
Proof.
  intros H1%chain_invariant H2%chain_invariant.
  exact (chain_canonical 0 l1 l2 H1 H2).
Qed.

Lemma rangesInvariant_bounds l : rangesInvariant l → Forall boundsOk l.
Proof. by intros []. Qed.

(** ** Stepping through the hours of a range *)

(** The step [(hour + 1) % 24] stays within the day. *)
Lemma next_hour_bounds hour :
  0 <= hour < 24 → 0 <= Z.rem (hour + 1) 24 < 24.
Proof. intros. Z.quot_rem_to_equations. lia. Qed.

(** From an hour of the day the loop never meets the end hour 24. *)
Lemma markHours_end24 fuel u hour chartData :
  0 <= hour < 24 → markHours fuel u hour 24 chartData = Running.
Proof.
  revert hour chartData. induction fuel as [|fuel IH]; intros hour cd Hh; [done|].
  simpl. destruct (Z.eqb_spec hour 24); [lia|].
  destruct (Z.leb_spec 0 hour), (Z.ltb_spec hour 24); try lia. simpl.
  apply IH. by apply next_hour_bounds.
Qed.

Lemma countHours_end24 fuel hour counts :
  0 <= hour < 24 → countHours fuel hour 24 counts = None.
Proof.
  revert hour counts. induction fuel as [|fuel IH]; intros hour c Hh; [done|].
  simpl. destruct (Z.eqb_spec hour 24); [lia|].
  apply IH. by apply next_hour_bounds.
Qed.

(** Between two hours of the day the loop ends after at most 24 steps. *)
Lemma markHours_finishes fuel u hour end_ chartData :
  0 <= hour < 24 → 0 <= end_ < 24 → (24 < fuel)%nat →
  ∃ chartData', markHours fuel u hour end_ chartData = Finished chartData'.
Proof.
  intros Hh He Hf.
  assert (∃ n, (end_ - hour) `mod` 24 = Z.of_nat n ∧ (n < fuel)%nat) as (n & Hn & Hlt).
  { exists (Z.to_nat ((end_ - hour) `mod` 24)).
    pose proof (Z.mod_pos_bound (end_ - hour) 24 ltac:(lia)). lia. }
  clear Hf. revert fuel hour chartData Hh Hn Hlt.
  induction n as [|n IH]; intros [|fuel] hour cd Hh Hn Hlt; try lia; simpl.
  - destruct (Z.eqb_spec hour end_); [by eexists|].
    exfalso. revert Hn. Z.div_mod_to_equations. lia.
  - destruct (Z.eqb_spec hour end_) as [->|]; [by eexists|].
    destruct (Z.leb_spec 0 hour), (Z.ltb_spec hour 24); try lia. simpl.
    apply IH; [by apply next_hour_bounds| |lia].
    revert Hn. Z.div_mod_to_equations. Z.quot_rem_to_equations. lia.
Qed.

Lemma markRanges_finishes fuel u l chartData :
  Forall (λ r : range, 0 <= r.1 < 24 ∧ 0 <= r.2 < 24) l → (24 < fuel)%nat →
  ∃ chartData', markRanges fuel u l chartData = Finished chartData'.
Proof.
  intros Hl Hf. revert chartData.
  induction Hl as [|[s e] l [Hs He] _ IH]; intros cd; simpl; [by eexists|].
  destruct (markHours_finishes fuel u s e cd Hs He Hf) as [cd' ->]. apply IH.
Qed.

(** ** Generated test data *)

Lemma randomBelow_bounds r n :
  (0 <= r)%Q → (r < 1)%Q → 0 < n → 0 <= randomBelow r n < n.
Proof.
  intros H0 H1 Hn. unfold randomBelow.
  assert (0 < inject_Z n)%Q as Hq.
  { change 0%Q with (inject_Z 0). rewrite <- Zlt_Qlt. lia. }
  split.
  - change 0 with (Qfloor (inject_Z 0)) at 1. rewrite <- Qfloor_Z at 1.
    apply Qfloor_resp_le. change (inject_Z 0) with 0%Q.
    apply Qmult_le_0_compat; [done|]. by apply Qlt_le_weak.
  - rewrite Zlt_Qlt. eapply Qle_lt_trans; [apply Qfloor_le|].
    rewrite <- (Qmult_1_l (inject_Z n)) at 2.
    by apply Qmult_lt_compat_r.
Qed.

Lemma pushRanges_onClock random pos n :
  unitInterval random → Forall onClock (pushRanges random pos n).
Proof.
  intros Hr. revert pos. induction n as [|n IH]; intros pos; simpl; [constructor|].
  constructor; [|apply IH].
  destruct (Hr pos) as [A0 A1], (Hr (S pos)) as [B0 B1].
  pose proof (randomBelow_bounds _ 24 A0 A1 ltac:(lia)).
  pose proof (randomBelow_bounds _ 3 B0 B1 ltac:(lia)).
  unfold onClock. simpl. Z.quot_rem_to_equations. lia.
Qed.

Lemma generateRandomSleepRanges_onClock random pos n :
  unitInterval random →
  Forall onClock (generateRandomSleepRanges random pos n).1.
Proof.
  intros Hr. unfold generateRandomSleepRanges.
  destruct (Nat.eqb n 1); simpl.
  - constructor; [|constructor].
    destruct (Hr pos) as [A0 A1], (Hr (S pos)) as [B0 B1].
    pose proof (randomBelow_bounds _ 4 A0 A1 ltac:(lia)).
    pose proof (randomBelow_bounds _ 4 B0 B1 ltac:(lia)).
    unfold onClock. simpl. Z.quot_rem_to_equations. lia.
  - unfold sortByStart. rewrite sortBy_perm. by apply pushRanges_onClock.
Qed.

Lemma putDummyDays_onClock random pos date count (s : gmap Z dayRecord) :
  unitInterval random →
  map_Forall (λ _ rec, ∀ u l, getU u rec = Some l → Forall onClock l) s →
  map_Forall (λ _ rec, ∀ u l, getU u rec = Some l → Forall onClock l)
             (putDummyDays random pos date count s).
Proof.
  intros Hr. revert pos date s.
  induction count as [|n IH]; intros pos date s Hs; cbn [putDummyDays]; [done|].
  pose proof (generateRandomSleepRanges_onClock random pos 4 Hr) as Hb.
  destruct (generateRandomSleepRanges random pos 4) as [b pos1].
  pose proof (generateRandomSleepRanges_onClock random pos1 1 Hr) as H1.
  destruct (generateRandomSleepRanges random pos1 1) as [u1 pos2].
  pose proof (generateRandomSleepRanges_onClock random pos2 1 Hr) as H2.
  destruct (generateRandomSleepRanges random pos2 1) as [u2 pos3].
  apply IH. apply map_Forall_insert_2; [|done].
  intros [] l [= <-]; done.
Qed.

(** ** Cells: the toggle on addresses computes the toggle on values *)

Lemma readCell_insert cells p v :
  (p < length cells)%nat → readCell (<[p:=v]> cells) p = v.
Proof. intros. unfold readCell. by rewrite list_lookup_insert_eq. Qed.

Lemma readCell_insert_ne cells p q v :
  p ≠ q → readCell (<[p:=v]> cells) q = readCell cells q.
Proof. intros. unfold readCell. by rewrite list_lookup_insert_ne. Qed.

Lemma readCell_app cells more p :
  (p < length cells)%nat → readCell (cells ++ more) p = readCell cells p.
Proof. intros. unfold readCell. by rewrite lookup_app_l. Qed.

Lemma readCell_new cells v : readCell (cells ++ [v]) (length cells) = v.
Proof. unfold readCell. by rewrite list_lookup_middle. Qed.

Lemma deref_insert cells p v l :
  p ∉ l → deref (<[p:=v]> cells) l = deref cells l.
Proof.
  intros Hp. apply list_fmap_ext. intros i q Hq.
  apply readCell_insert_ne. intros ->. apply Hp. by eapply list_elem_of_lookup_2.
Qed.

Lemma deref_app cells more l :
  Forall (λ p, (p < length cells)%nat) l →
  deref (cells ++ more) l = deref cells l.
Proof.
  intros Hl. apply list_fmap_ext. intros i q Hq.
  apply readCell_app. eapply Forall_lookup_1 in Hl; [exact Hl|exact Hq].
Qed.

Lemma evolves_refl cells l : distinctCells cells l → evolves cells l cells l.
Proof. intros. split; auto. Qed.

Lemma evolves_trans c0 l0 c1 l1 c2 l2 :
  evolves c0 l0 c1 l1 → evolves c1 l1 c2 l2 → evolves c0 l0 c2 l2.
Proof.
  intros [D1 G1 L1 F1] [D2 G2 L2 F2]. split; [done|lia| |].
  - intros q Hq. destruct (L2 q Hq) as [H|H]; [by apply L1|right; lia].
  - intros q Hq Hlt. rewrite F2, F1; [done..| |lia].
    intros H. destruct (L1 q H); [done|lia].
Qed.

Lemma evolves_perm cells l l' :
  distinctCells cells l → l' ≡ₚ l → evolves cells l cells l'.
Proof.
  intros [Hn Hb] Hp. split; [|lia| |done].
  - split; by rewrite Hp.
  - intros q Hq. left. by rewrite <- Hp.
Qed.

(** A cell in front of the list that the phase does not look at. *)
Lemma evolves_cons cells l cells' l' p :
  evolves cells l cells' l' → p ∉ l → (p < length cells)%nat →
  evolves cells (p :: l) cells' (p :: l') ∧ readCell cells' p = readCell cells p.
Proof.
  intros [[Hn Hb] G L F] Hp Hlt. split; [split|].
  - split.
    + apply NoDup_cons. split; [|done].
      intros H. destruct (L p H); [done|lia].
    + constructor; [lia|done].
  - done.
  - intros q [->|Hq]%elem_of_cons; [left; left|].
    destruct (L q Hq); [left; by right|by right].
  - intros q Hq Hq'. apply F; [|done]. intros H. apply Hq. by right.
  - unfold readCell. by rewrite F.
Qed.

(** Writing to one cell of the list. *)
Lemma evolves_write cells l p v :
  distinctCells cells l → p ∈ l →
  evolves cells l (<[p:=v]> cells) l.
Proof.
  intros [Hn Hb] Hp. split; [|by rewrite length_insert|auto|].
  - split; [done|]. eapply Forall_impl; [exact Hb|].
    intros q. by rewrite length_insert.
  - intros q Hq _. apply list_lookup_insert_ne. by intros ->.
Qed.

Lemma removeHourAt_refines h cells l :
  distinctCells cells l →
  match removeHourAt h cells l with
  | Some (cells', l') =>
      removeHour h (deref cells l) = Some (deref cells' l')
      ∧ evolves cells l cells' l'
  | None => removeHour h (deref cells l) = None
  end.
Proof.
  induction l as [|p rest IH]; intros [Hn Hb]; [done|].
  apply NoDup_cons in Hn as [Hp Hn]. apply Forall_cons in Hb as [Hlt Hb].
  cbn [removeHourAt]. unfold deref. cbn [fmap list_fmap removeHour].
  fold (deref cells rest).
  destruct (readCell cells p) as [s e] eqn:Hc.
  destruct ((s <=? h) && (h <? e)).
  - assert (distinctCells cells (p :: rest)) as Hd.
    { split; [by apply NoDup_cons|by constructor]. }
    destruct (e - s =? 1); [|destruct (h =? s); [|destruct (h =? e - 1)]].
    + split; [done|]. split; [done|lia| |].
      * intros q Hq. left. by right.
      * done.
    + split; [|apply evolves_write; [done|by left]].
      unfold deref. cbn [fmap list_fmap]. fold (deref (<[p:=(s + 1, e)]> cells) rest).
      by rewrite readCell_insert, deref_insert.
    + split; [|apply evolves_write; [done|by left]].
      unfold deref. cbn [fmap list_fmap]. fold (deref (<[p:=(s, e - 1)]> cells) rest).
      by rewrite readCell_insert, deref_insert.
    + assert (Forall (λ q, (q < length (cells ++ [(h + 1, e)%Z]))%nat) rest) as Hb'.
      { eapply Forall_impl; [exact Hb|]. intros q. rewrite length_app. simpl. lia. }
      assert (length cells ∉ rest) as Hnew.
      { intros H. eapply Forall_forall in Hb; [|exact H]. simpl in Hb. lia. }
      split.
      * unfold deref. cbn [fmap list_fmap].
        fold (deref (<[p:=(s, h)]> (cells ++ [(h + 1, e)])) rest).
        rewrite readCell_insert by (rewrite length_app; lia).
        rewrite readCell_insert_ne by lia.
        rewrite readCell_new, deref_insert, deref_app; done.
      * split.
        -- split.
           ++ apply NoDup_cons. split.
              { intros [H|H]%elem_of_cons; [lia|done]. }
              apply NoDup_cons. done.
           ++ rewrite length_insert, length_app. simpl.
              constructor; [lia|]. constructor; [lia|].
              eapply Forall_impl; [exact Hb|]. simpl. lia.
        -- rewrite length_insert, length_app. lia.
        -- intros q [->|[->|Hq]%elem_of_cons]%elem_of_cons;
             [left; by left|by right|left; by right].
        -- intros q Hq Hq'. rewrite list_lookup_insert_ne.
           ++ by rewrite lookup_app_l.
           ++ intros ->. apply Hq. by left.
  - specialize (IH (conj Hn Hb)).
    destruct (removeHourAt h cells rest) as [[cells' l']|]; cbn.
    + destruct IH as [-> Hev].
      destruct (evolves_cons _ _ _ _ p Hev Hp Hlt) as [Hev' Hread].
      split; [|done]. cbn. unfold deref. cbn [fmap list_fmap].
      by rewrite Hread, Hc.
    + by rewrite IH.
Qed.

Lemma extendRangeAt_refines h cells l :
  distinctCells cells l →
  match extendRangeAt h cells l with
  | Some (cells', l') =>
      extendRange h (deref cells l) = Some (deref cells' l')
      ∧ evolves cells l cells' l'
  | None => extendRange h (deref cells l) = None
  end.
Proof.
  induction l as [|p rest IH]; intros [Hn Hb]; [done|].
  apply NoDup_cons in Hn as [Hp Hn]. apply Forall_cons in Hb as [Hlt Hb].
  cbn [extendRangeAt]. unfold deref. cbn [fmap list_fmap extendRange].
  fold (deref cells rest).
  destruct (readCell cells p) as [s e] eqn:Hc.
  assert (distinctCells cells (p :: rest)) as Hd.
  { split; [by apply NoDup_cons|by constructor]. }
  destruct (h =? e); [|destruct (h + 1 =? s)].
  - split; [|apply evolves_write; [done|by left]].
    unfold deref. cbn [fmap list_fmap]. fold (deref (<[p:=(s, e + 1)]> cells) rest).
    by rewrite readCell_insert, deref_insert.
  - split; [|apply evolves_write; [done|by left]].
    unfold deref. cbn [fmap list_fmap]. fold (deref (<[p:=(s - 1, e)]> cells) rest).
    by rewrite readCell_insert, deref_insert.
  - specialize (IH (conj Hn Hb)).
    destruct (extendRangeAt h cells rest) as [[cells' l']|]; cbn.
    + destruct IH as [-> Hev].
      destruct (evolves_cons _ _ _ _ p Hev Hp Hlt) as [Hev' Hread].
      split; [|done]. cbn. unfold deref. cbn [fmap list_fmap].
      by rewrite Hread, Hc.
    + by rewrite IH.
Qed.

Lemma flipHourAt_refines h cells l :
  distinctCells cells l →
  deref (flipHourAt h cells l).1 (flipHourAt h cells l).2
    = flipHour h (deref cells l)
  ∧ evolves cells l (flipHourAt h cells l).1 (flipHourAt h cells l).2.
Proof.
  intros Hd. unfold flipHourAt, flipHour.
  pose proof (removeHourAt_refines h cells l Hd) as Hr.
  destruct (removeHourAt h cells l) as [[c' l']|].
  { destruct Hr as [-> Hev]. done. }
  rewrite Hr.
  pose proof (extendRangeAt_refines h cells l Hd) as He.
  destruct (extendRangeAt h cells l) as [[c' l']|].
  { destruct He as [-> Hev]. done. }
  rewrite He. destruct Hd as [Hn Hb]. cbn [fst snd]. split.
  - unfold deref. rewrite fmap_app. cbn [fmap list_fmap].
    rewrite readCell_new. f_equal. by apply deref_app.
  - split.
    + split.
      * apply NoDup_app. split_and!; [done| |apply NoDup_singleton].
        intros q Hq ->%list_elem_of_singleton.
        eapply Forall_forall in Hb; [|exact Hq]. simpl in Hb. lia.
      * rewrite length_app. simpl. apply Forall_app. split.
        -- eapply Forall_impl; [exact Hb|]. simpl. lia.
        -- constructor; [lia|constructor].
    + rewrite length_app. lia.
    + intros q [Hq| ->%list_elem_of_singleton]%elem_of_app; [by left|by right].
    + intros q _ Hq. by rewrite lookup_app_l.
Qed.

Lemma mergeFromAt_refines rest cells p :
  distinctCells cells (p :: rest) →
  deref (mergeFromAt cells p rest).1 (mergeFromAt cells p rest).2
    = mergeFrom (readCell cells p) (deref cells rest)
  ∧ evolves cells (p :: rest)
            (mergeFromAt cells p rest).1 (mergeFromAt cells p rest).2.
Proof.
  revert cells p. induction rest as [|q rest IH]; intros cells p Hd.
  { split; [done|by apply evolves_refl]. }
  pose proof Hd as [Hn Hb].
  apply NoDup_cons in Hn as [Hp Hn]. apply Forall_cons in Hb as [Hlt Hb].
  apply not_elem_of_cons in Hp as [Hpq Hp].
  pose proof Hn as [Hq Hn']%NoDup_cons.
  cbn [mergeFromAt]. unfold deref at 2. cbn [fmap list_fmap mergeFrom].
  fold (deref cells rest).
  destruct ((readCell cells p).2 >=? (readCell cells q).1).
  - set (v := ((readCell cells p).1,
               Z.max (readCell cells p).2 (readCell cells q).2)).
    assert (distinctCells (<[p:=v]> cells) (p :: rest)) as Hd'.
    { split; [by apply NoDup_cons|].
      apply Forall_cons in Hb as [_ Hb].
      constructor; [by rewrite length_insert|].
      eapply Forall_impl; [exact Hb|]. intros r. by rewrite length_insert. }
    destruct (IH _ _ Hd') as [-> Hev].
    rewrite readCell_insert, deref_insert by done. split; [done|].
    eapply evolves_trans; [|exact Hev].
    split; [done|by rewrite length_insert| |].
    + intros r [->|Hr]%elem_of_cons; left; [by left|right; by right].
    + intros r Hr _. apply list_lookup_insert_ne. intros ->. apply Hr. by left.
  - destruct (IH cells q (conj Hn Hb)) as [Heq Hev].
    destruct (mergeFromAt cells q rest) as [c' l']. cbn [fst snd prod_map] in *.
    destruct (evolves_cons _ _ _ _ p Hev) as [Hev' Hread]; [|done|].
    { by apply not_elem_of_cons. }
    split; [|done]. unfold deref in *. cbn [fmap list_fmap id].
    by rewrite Hread, Heq.
Qed.

Lemma mergeRangesAt_refines cells l :
  distinctCells cells l →
  deref (mergeRangesAt cells l).1 (mergeRangesAt cells l).2
    = mergeRanges (deref cells l)
  ∧ evolves cells l (mergeRangesAt cells l).1 (mergeRangesAt cells l).2.
Proof.
  destruct l as [|p rest]; intros Hd.
  - split; [done|by apply evolves_refl].
  - by apply mergeFromAt_refines.
Qed.

(** Without sharing among the cells of the list, the toggle on addresses
    leaves the list of values that the toggle on values computes. *)
Lemma toggleCells_refines h cells l :
  distinctCells cells l →
  deref (toggleCells h cells l).1 (toggleCells h cells l).2
    = toggleRanges h (deref cells l)
  ∧ evolves cells l (toggleCells h cells l).1 (toggleCells h cells l).2.
Proof.
  intros Hd. unfold toggleCells, toggleRanges.
  destruct (flipHourAt_refines h cells l Hd) as [Heq Hev].
  destruct (flipHourAt h cells l) as [c1 l1]. cbn [fst snd] in *.
  assert (evolves c1 l1 c1 (sortBy (λ p, (readCell c1 p).1) l1)) as Hsort.
  { apply evolves_perm; [apply Hev|apply sortBy_perm]. }
  destruct (mergeRangesAt_refines c1 (sortBy (λ p, (readCell c1 p).1) l1))
    as [Heq' Hev']; [apply Hsort|].
  split.
  - rewrite Heq'. unfold sortByStart. rewrite <- Heq. f_equal.
    apply (sortBy_fmap fst (readCell c1)).
  - eapply evolves_trans; [exact Hev|].
    eapply evolves_trans; [exact Hsort|exact Hev'].
Qed.

(** ** The state: cache, store and cells *)

Lemma getU_setU {A} u (v : A) o : getU u (setU u v o) = v.
Proof. by destruct u. Qed.

Lemma getU_setU_ne {A} u u' (v : A) o :
  u ≠ u' → getU u' (setU u v o) = getU u' o.
Proof. by destruct u, u'. Qed.

Lemma lookup_setCached u date l st u' date' :
  getU u' (sleepData (setCached u date l st)) !! date' =
    if decide (u = u' ∧ date = date') then Some l
    else getU u' (sleepData st) !! date'.
Proof.
  unfold setCached. cbn [sleepData].
  destruct (decide (u = u')) as [<-|Hne].
  - rewrite getU_setU. destruct (decide (date = date')) as [<-|Hd].
    + rewrite lookup_insert_eq. by rewrite decide_True.
    + rewrite lookup_insert_ne by done. rewrite decide_False; [done|tauto].
  - rewrite getU_setU_ne by done. rewrite decide_False; [done|tauto].
Qed.

Lemma extends_refl st : extends st st.
Proof. split; [done| |done]. exists []. by rewrite app_nil_r. Qed.

Lemma extends_trans st1 st2 st3 :
  extends st1 st2 → extends st2 st3 → extends st1 st3.
Proof.
  intros [S1 [m1 C1] K1] [S2 [m2 C2] K2]. split; [congruence| |auto].
  exists (m1 ++ m2). by rewrite C2, C1, app_assoc.
Qed.

Lemma lookupUser_keyName u : lookupUser (keyName u) = Some (Subject u).
Proof. by destruct u. Qed.

Lemma getSleepData_cached u date st l :
  getU u (sleepData st) !! date = Some l → getSleepData u date st = (st, l).
Proof. intros H. unfold getSleepData. by rewrite H. Qed.

(** [getSleepData] leaves the list it returns in the cache. *)
Lemma getSleepData_spec u date st :
  cacheOk st →
  let st1 := (getSleepData u date st).1 in
  let l := (getSleepData u date st).2 in
  extends st st1 ∧ cacheOk st1 ∧ getU u (sleepData st1) !! date = Some l
  ∧ (clockOk date st → clockOk date st1).
Proof.
  intros Hok. unfold getSleepData.
  destruct (getU u (sleepData st) !! date) as [l|] eqn:Hc; cbn [fst snd].
  { split_and!; [apply extends_refl|done..]. }
  unfold stored.
  destruct (store st !! date ≫= getU u) as [ranges|] eqn:Hs; cbn [fst snd].
  - split_and!.
    + split; [done|by eexists|].
      intros u' d' l' H. rewrite lookup_setCached.
      destruct (decide _) as [[<- <-]|]; [congruence|done].
    + intros u' d' l'. rewrite lookup_setCached. cbn [cells setCells setCached].
      destruct (decide _) as [_|_].
      * intros [= <-]. split; [apply NoDup_seq|].
        apply Forall_seq. intros j Hj. rewrite length_app. lia.
      * intros H. destruct (Hok _ _ _ H) as [Hn Hb]. split; [done|].
        eapply Forall_impl; [exact Hb|]. intros q. rewrite length_app. simpl. lia.
    + rewrite lookup_setCached. by rewrite decide_True.
    + intros [Hcells Hst]. split; [|done].
      cbn [cells setCells setCached]. apply Forall_app. split; [done|].
      by apply (Hst u).
  - split_and!.
    + split; [done|exists []; by rewrite app_nil_r|].
      intros u' d' l' H. rewrite lookup_setCached.
      destruct (decide _) as [[<- <-]|]; [congruence|done].
    + intros u' d' l'. rewrite lookup_setCached. cbn [cells setCached].
      destruct (decide _) as [_|_]; [|by apply Hok].
      intros [= <-]. split; constructor.
    + rewrite lookup_setCached. by rewrite decide_True.
    + done.
Qed.

Lemma readCell_onDay cells p : Forall onDay cells → onDay (readCell cells p).
Proof.
  intros Hc. unfold readCell. destruct (cells !! p) as [r|] eqn:Hp; simpl.
  - by eapply Forall_lookup_1 in Hc.
  - unfold onDay. simpl. lia.
Qed.

Lemma deref_onDay cells l : Forall onDay cells → Forall onDay (deref cells l).
Proof.
  intros Hc. unfold deref. apply Forall_fmap, Forall_forall.
  intros p _. by apply readCell_onDay.
Qed.

Lemma removeHourAt_onDay h cells l c' l' :
  Forall onDay cells → removeHourAt h cells l = Some (c', l') → Forall onDay c'.
Proof.
  intros Hc. revert c' l'. induction l as [|p rest IH]; intros c' l'; [done|].
  cbn [removeHourAt]. pose proof (readCell_onDay cells p Hc) as Hp.
  destruct (readCell cells p) as [s e]. unfold onDay in Hp. simpl in Hp.
  destruct (Z.leb_spec s h), (Z.ltb_spec h e); cbn [andb];
    try (destruct (removeHourAt h cells rest) as [[c'' l'']|]; [|done];
         intros [= <- <-]; by eapply IH).
  destruct (e - s =? 1); [|destruct (h =? s); [|destruct (h =? e - 1)]];
    intros [= <- <-]; [done|..];
    try apply Forall_insert; try apply Forall_app; try done;
    try (split; [done|]); repeat constructor; simpl; lia.
Qed.

Lemma extendRangeAt_onDay h cells l c' l' :
  0 <= h < 23 →
  Forall onDay cells → extendRangeAt h cells l = Some (c', l') → Forall onDay c'.
Proof.
  intros Hh Hc. revert c' l'. induction l as [|p rest IH]; intros c' l'; [done|].
  cbn [extendRangeAt]. pose proof (readCell_onDay cells p Hc) as Hp.
  destruct (readCell cells p) as [s e]. unfold onDay in Hp. simpl in Hp.
  destruct (Z.eqb_spec h e); [|destruct (Z.eqb_spec (h + 1) s)].
  - intros [= <- <-]. apply Forall_insert; [done|]. unfold onDay. simpl. lia.
  - intros [= <- <-]. apply Forall_insert; [done|]. unfold onDay. simpl. lia.
  - destruct (extendRangeAt h cells rest) as [[c'' l'']|]; [|done].
    intros [= <- <-]. by eapply IH.
Qed.

Lemma mergeFromAt_onDay rest cells p :
  Forall onDay cells → Forall onDay (mergeFromAt cells p rest).1.
Proof.
  revert cells p. induction rest as [|q rest IH]; intros cells p Hc; [done|].
  cbn [mergeFromAt].
  pose proof (readCell_onDay cells p Hc) as [? ?].
  pose proof (readCell_onDay cells q Hc) as [? ?].
  destruct (_ >=? _).
  - apply IH. apply Forall_insert; [done|]. unfold onDay. simpl. lia.
  - specialize (IH cells q Hc). by destruct (mergeFromAt cells q rest).
Qed.

(** Toggling an hour before 23 leaves every cell short of hour 24. *)
Lemma toggleCells_onDay h cells l :
  0 <= h < 23 → Forall onDay cells → Forall onDay (toggleCells h cells l).1.
Proof.
  intros Hh Hc. unfold toggleCells.
  assert (Forall onDay (flipHourAt h cells l).1) as H1.
  { unfold flipHourAt.
    destruct (removeHourAt h cells l) as [[c' l']|] eqn:Hr.
    { by eapply removeHourAt_onDay. }
    destruct (extendRangeAt h cells l) as [[c' l']|] eqn:He.
    { by eapply extendRangeAt_onDay. }
    cbn [fst]. apply Forall_app. split; [done|].
    repeat constructor; simpl; lia. }
  destruct (flipHourAt h cells l) as [c1 l1]. cbn [fst] in H1.
  unfold mergeRangesAt. destruct (sortBy _ l1) as [|p rest]; [done|].
  by apply mergeFromAt_onDay.
Qed.

(** The refresh reads; it returns unless a loop over hours goes on for
    ever. *)
Lemma chartUsers_spec fuel date users chartData st :
  cacheOk st →
  match chartUsers fuel date users chartData st with
  | Returns st' | Throws st' => extends st st' ∧ cacheOk st'
  | Diverges => True
  end.
Proof.
  revert chartData st. induction users as [|u users IH]; intros cd st Hok.
  { split; [|done]. split; [done|exists []; by rewrite app_nil_r|done]. }
  cbn [chartUsers].
  destruct (getSleepData_spec u date st Hok) as (Hext & Hok1 & _ & _).
  destruct (getSleepData u date st) as [st1 l]. cbn [fst snd] in *.
  destruct (markRanges fuel u (deref (cells st1) l) cd) as [cd'| |]; [|done..].
  specialize (IH cd' st1 Hok1).
  destruct (chartUsers fuel date users cd' st1) as [st'|st'|]; [| |done];
    destruct IH; split; try done; by eapply extends_trans.
Qed.

Lemma chartUsers_returns fuel date users chartData st :
  cacheOk st → clockOk date st → (24 < fuel)%nat →
  ∃ st', chartUsers fuel date users chartData st = Returns st'.
Proof.
  intros Hok Hclock Hf. revert chartData st Hok Hclock.
  induction users as [|u users IH]; intros cd st Hok Hclock; [by eexists|].
  cbn [chartUsers].
  destruct (getSleepData_spec u date st Hok) as (_ & Hok1 & _ & Hclock1).
  specialize (Hclock1 Hclock).
  destruct (getSleepData u date st) as [st1 l]. cbn [fst snd] in *.
  destruct (markRanges_finishes fuel u (deref (cells st1) l) cd) as [cd' ->];
    [|done|by apply IH].
  apply deref_onDay, Hclock1.
Qed.

(** ** A toggle on the state *)

Lemma visible_cached u date st st' l :
  distinctCells (cells st) l →
  getU u (sleepData st) !! date = Some l →
  extends st st' →
  visible u date st' = deref (cells st) l.
Proof.
  intros [_ Hb] Hc [_ [more Hm] Hk]. unfold visible.
  rewrite (getSleepData_cached u date st' l) by auto. cbn [fst snd].
  rewrite Hm. by apply deref_app.
Qed.

(** Over a store that accepts the write, the list of the value-level
    toggle is what the store and the cache hold afterwards. *)
Lemma toggleAndSave_spec u hour date st :
  cacheOk st →
  let st2 := toggleAndSave true u hour date st in
  cacheOk st2
  ∧ stored u date st2 = Some (toggleRanges hour (visible u date st))
  ∧ (∃ l, getU u (sleepData st2) !! date = Some l
          ∧ deref (cells st2) l = toggleRanges hour (visible u date st))
  ∧ (0 <= hour < 23 → clockOk date st → clockOk date st2).
Proof.
  intros Hok. unfold toggleAndSave, visible.
  destruct (getSleepData_spec u date st Hok) as (Hext & Hok1 & Hc1 & Hclock1).
  destruct (getSleepData u date st) as [st1 l]. cbn [fst snd] in *.
  pose proof (Hok1 _ _ _ Hc1) as Hd.
  destruct (toggleCells_refines hour (cells st1) l Hd) as [Heq Hev].
  pose proof (toggleCells_onDay hour (cells st1) l) as Hday.
  destruct (toggleCells hour (cells st1) l) as [cells2 l2]. cbn [fst snd] in *.
  unfold saveSleepData. cbn [store cells setCells setStore].
  split_and!.
  - intros u' d' l'. rewrite lookup_setCached. cbn [cells setCached setStore setCells].
    destruct (decide _) as [_|_]; [intros [= <-]; apply Hev|].
    cbn [sleepData setStore setCells]. intros H.
    destruct (Hok1 _ _ _ H) as [Hn Hb]. split; [done|].
    eapply Forall_impl; [exact Hb|]. intros q Hq. simpl in Hq.
    pose proof (ev_grow _ _ _ _ Hev). lia.
  - unfold stored. cbn [store setCached setStore].
    rewrite lookup_insert_eq. cbn. by rewrite getU_setU, Heq.
  - exists l2. rewrite lookup_setCached. by rewrite decide_True.
  - intros Hh Hclock. destruct (Hclock1 Hclock) as [Hcells Hst].
    specialize (Hday Hh Hcells). split; [done|].
    intros v lv. unfold stored. cbn [store setCached setStore].
    rewrite lookup_insert_eq. cbn.
    destruct (decide (u = v)) as [<-|Hne].
    + rewrite getU_setU. intros [= <-]. by apply deref_onDay.
    + rewrite getU_setU_ne by done. intros Hv. apply (Hst v).
      unfold stored. destruct (store st1 !! date); [done|by destruct v].
Qed.

(** The list handed to [saveSleepData] is the list of the value-level
    toggle of the list that [getSleepData] returned. *)
Lemma handedToSave_eq u hour date st :
  cacheOk st →
  handedToSave u hour date st = toggleRanges hour (visible u date st).
Proof.
  intros Hok. unfold handedToSave, visible.
  destruct (getSleepData_spec u date st Hok) as (_ & Hok1 & Hc1 & _).
  destruct (getSleepData u date st) as [st1 l]. cbn [fst snd] in *.
  destruct (toggleCells_refines hour (cells st1) l (Hok1 _ _ _ Hc1))
    as [Heq _].
  by destruct (toggleCells hour (cells st1) l) as [cells2 l2].
Qed.

(** ** A toggle whose write fails *)

Lemma getSleepData_errors u date st :
  errors (getSleepData u date st).1 = errors st.
Proof.
  unfold getSleepData. destruct (getU u (sleepData st) !! date); [done|].
  by destruct (store st !! date ≫= getU u).
Qed.

(** The toggle itself keeps every cached list without sharing, also when
    nothing is saved. *)
Lemma toggleAndSave_failed u hour date st :
  cacheOk st →
  let st2 := toggleAndSave false u hour date st in
  cacheOk st2 ∧ store st2 = store st
  ∧ errors st2 = "Error saving sleep data:" :: errors st.
Proof.
  intros Hok. unfold toggleAndSave.
  destruct (getSleepData_spec u date st Hok) as (Hext & Hok1 & Hc1 & _).
  pose proof (getSleepData_errors u date st) as Herr.
  destruct (getSleepData u date st) as [st1 l]. cbn [fst snd] in *.
  destruct (toggleCells_refines hour (cells st1) l (Hok1 _ _ _ Hc1))
    as [_ Hev].
  destruct (toggleCells hour (cells st1) l) as [cells2 l2]. cbn [fst snd] in *.
  unfold saveSleepData. cbn [store errors consoleError setCells].
  split_and!; [|by apply Hext|by rewrite Herr].
  intros u' d' l' H. cbn [cells sleepData consoleError setCells] in *.
  destruct (Hok1 _ _ _ H) as [Hn Hb]. split; [done|].
  eapply Forall_impl; [exact Hb|]. intros q Hq. simpl in Hq.
  pose proof (ev_grow _ _ _ _ Hev). lia.
Qed.

(** When the write fails, the failure is logged and the stored records are
    as before.  (The cached list is not: see
    [failed_write_changes_cached_list].) *)
Lemma failed_write_keeps_store fuel u hour date st st' v :
  cacheOk st →
  toggleSleepHour fuel false (keyName u) hour date st = Some (st', v) →
  store st' = store st ∧ "Error saving sleep data:" ∈ errors st'.
Proof.
  intros Hok. unfold toggleSleepHour. rewrite lookupUser_keyName.
  destruct (toggleAndSave_failed u hour date st Hok) as (Hok2 & Hst & Herr).
  set (st2 := toggleAndSave false u hour date st) in *.
  assert (∀ users chartData st0,
            match chartUsers fuel date users chartData st0 with
            | Returns st3 | Throws st3 => errors st3 = errors st0
            | Diverges => True
            end) as Hsame.
  { induction users as [|w users IH]; intros cd st0; [done|].
    cbn [chartUsers].
    pose proof (getSleepData_errors w date st0) as Hw.
    destruct (getSleepData w date st0) as [st1 l]. cbn [fst] in Hw.
    destruct (markRanges fuel w _ cd) as [cd'| |]; [|done..].
    specialize (IH cd' st1).
    destruct (chartUsers fuel date users cd' st1); congruence. }
  pose proof (chartUsers_spec fuel date [baby; user1; user2] emptyChart st2 Hok2)
    as Hchart.
  specialize (Hsame [baby; user1; user2] emptyChart st2).
  unfold updateChart, updateDataAndRefreshChart.
  destruct (chartUsers fuel date [baby; user1; user2] emptyChart st2)
    as [st3|st3|]; [| |done]; intros [= <- <-]; destruct Hchart as [Hext _].
  - split; [by rewrite (ext_store _ _ Hext)|].
    rewrite Hsame, Herr. by left.
  - cbn [store errors consoleError].
    split; [by rewrite (ext_store _ _ Hext)|].
    rewrite Hsame, Herr. right. by left.
Qed.

(** No call evaluates to anything but [undefined]. *)
Lemma toggleSleepHour_undefined fuel putOk k hour date st st' v :
  toggleSleepHour fuel putOk k hour date st = Some (st', v) → v = JsUndefined.
Proof.
  unfold toggleSleepHour.
  destruct (lookupUser k) as [[u|]|]; [|by intros [= _ <-]..].
  destruct (updateChart _ _ _); [by intros [= _ <-]..|done].
Qed.

Lemma toggleAndSave_failed_clock u hour date st :
  cacheOk st → 0 <= hour < 23 → clockOk date st →
  clockOk date (toggleAndSave false u hour date st).
Proof.
  intros Hok Hh Hclock. unfold toggleAndSave.
  destruct (getSleepData_spec u date st Hok) as (_ & _ & _ & Hclock1).
  destruct (Hclock1 Hclock) as [Hcells Hst].
  destruct (getSleepData u date st) as [st1 l]. cbn [fst snd] in *.
  pose proof (toggleCells_onDay hour (cells st1) l Hh Hcells) as Hday.
  destruct (toggleCells hour (cells st1) l) as [cells2 l2]. cbn [fst] in Hday.
  split; [exact Hday|exact Hst].
Qed.

(** As long as no range reaches hour 24 and the hour is below 23, the call
    comes back. *)
Lemma failed_toggle_returns fuel u hour date st :
  cacheOk st → clockOk date st → 0 <= hour < 23 → (24 < fuel)%nat →
  ∃ st', toggleSleepHour fuel false (keyName u) hour date st
         = Some (st', JsUndefined).
Proof.
  intros Hok Hclock Hh Hf. unfold toggleSleepHour. rewrite lookupUser_keyName.
  destruct (toggleAndSave_failed u hour date st Hok) as (Hok2 & _ & _).
  pose proof (toggleAndSave_failed_clock u hour date st Hok Hh Hclock)
    as Hclock2.
  destruct (chartUsers_returns fuel date [baby; user1; user2] emptyChart
              _ Hok2 Hclock2 Hf) as [st3 Hret].
  unfold updateChart, updateDataAndRefreshChart. rewrite Hret. by eexists.
Qed.

(** ** Sequences of calls *)

Lemma cacheOk_emptyState : cacheOk emptyState.
Proof. intros [] date l; cbn; by rewrite lookup_empty. Qed.

(** ** Aggregation and daily occupancy when no range reaches hour 24 *)

Lemma countHours_linear fuel s e counts :
  0 ≤ s → s ≤ e → e ≤ 23 → (Z.to_nat (e - s) < fuel)%nat →
  ∃ counts',
    countHours fuel s e counts = Some counts'
    ∧ ∀ i, counts' !! i
           = (λ c, c + Z.b2z (inRange (Z.of_nat i) (s, e))) <$> counts !! i.
Proof.
  revert s counts. induction fuel as [|fuel IH]; intros s counts H0 Hse He Hf;
    [lia|].
  cbn [countHours]. destruct (Z.eqb_spec s e) as [->|Hne].
  - exists counts. split; [done|]. intros i. unfold inRange. simpl.
    destruct (counts !! i); simpl; [|done]. f_equal. cmp.
  - assert (Z.rem (s + 1) 24 = s + 1) as -> by (apply Z.rem_small; lia).
    destruct (IH (s + 1) (increment s counts)) as (counts' & -> & Hc);
      [lia..|].
    exists counts'. split; [done|]. intros i. rewrite Hc.
    unfold increment. destruct (Z.ltb_spec s 0); [lia|].
    rewrite list_lookup_alter. unfold inRange. simpl.
    destruct (decide (Z.to_nat s = i)) as [<-|Hi].
    + rewrite Z2Nat.id by lia.
      destruct (counts !! Z.to_nat s); simpl; [|done]. f_equal. cmp.
    + destruct (counts !! i); simpl; [|done]. f_equal. cmp.
Qed.

Lemma countRanges_covered fuel lo l counts :
  0 ≤ lo → chain lo l → Forall (λ r : range, r.2 ≤ 23) l → (24 < fuel)%nat →
  ∃ counts',
    countRanges fuel l counts = Some counts'
    ∧ ∀ i, counts' !! i
           = (λ c, c + Z.b2z (covered (Z.of_nat i) l)) <$> counts !! i.
Proof.
  revert lo counts. induction l as [|[s e] l IH]; intros lo counts Hlo Hc Hl Hf.
  - exists counts. split; [done|]. intros i.
    destruct (counts !! i); simpl; [|done]. f_equal. lia.
  - destruct Hc as (H1 & H2 & _ & Hc). apply Forall_cons in Hl as [He Hl].
    simpl in H1, H2, He, Hc. cbn [countRanges].
    destruct (countHours_linear fuel s e counts) as (c1 & -> & Hc1); [lia..|].
    destruct (IH (e + 1) c1) as (c2 & -> & Hc2); [lia|done..|].
    exists c2. split; [done|]. intros i. rewrite Hc2, Hc1, covered_cons.
    destruct (counts !! i); simpl; [|done]. f_equal.
    destruct (inRange (Z.of_nat i) (s, e)) eqn:Hin; simpl; [|lia].
    rewrite (chain_not_covered _ _ _ Hc); [simpl; lia|].
    unfold inRange in Hin. simpl in Hin. revert Hin. cmp.
Qed.

Lemma markHours_linear fuel u s e chartData :
  0 ≤ s → s ≤ e → e ≤ 23 → (Z.to_nat (e - s) < fuel)%nat →
  ∃ chartData',
    markHours fuel u s e chartData = Finished chartData'
    ∧ ∀ i, chartData' !! i
           = (λ row, if inRange (Z.of_nat i) (s, e) then setU u 1 row else row)
               <$> chartData !! i.
Proof.
  revert s chartData.
  induction fuel as [|fuel IH]; intros s cd H0 Hse He Hf; [lia|].
  cbn [markHours]. destruct (Z.eqb_spec s e) as [->|Hne].
  - exists cd. split; [done|]. intros i. unfold inRange. simpl.
    destruct (cd !! i); simpl; [|done]. f_equal. cmp.
  - destruct (Z.leb_spec 0 s), (Z.ltb_spec s 24); try lia. cbn [andb].
    assert (Z.rem (s + 1) 24 = s + 1) as -> by (apply Z.rem_small; lia).
    destruct (IH (s + 1) (alter (setU u 1) (Z.to_nat s) cd))
      as (cd' & -> & Hc); [lia..|].
    exists cd'. split; [done|]. intros i. rewrite Hc.
    rewrite list_lookup_alter. unfold inRange. simpl.
    destruct (decide (Z.to_nat s = i)) as [<-|Hi].
    + rewrite Z2Nat.id by lia.
      destruct (cd !! Z.to_nat s); simpl; [|done]. f_equal. cmp.
    + destruct (cd !! i); simpl; [|done]. f_equal. cmp.
Qed.

Lemma setU_setU {A} u (v : A) o : setU u v (setU u v o) = setU u v o.
Proof. by destruct u. Qed.

Lemma markRanges_covered fuel u lo l chartData :
  0 ≤ lo → chain lo l → Forall (λ r : range, r.2 ≤ 23) l → (24 < fuel)%nat →
  ∃ chartData',
    markRanges fuel u l chartData = Finished chartData'
    ∧ ∀ i, chartData' !! i
           = (λ row, if covered (Z.of_nat i) l then setU u 1 row else row)
               <$> chartData !! i.
Proof.
  revert lo chartData. induction l as [|[s e] l IH]; intros lo cd Hlo Hc Hl Hf.
  - exists cd. split; [done|]. intros i. by destruct (cd !! i).
  - destruct Hc as (H1 & H2 & _ & Hc). apply Forall_cons in Hl as [He Hl].
    simpl in H1, H2, He, Hc. cbn [markRanges].
    destruct (markHours_linear fuel u s e cd) as (c1 & -> & Hc1); [lia..|].
    destruct (IH (e + 1) c1) as (c2 & -> & Hc2); [lia|done..|].
    exists c2. split; [done|]. intros i. rewrite Hc2, Hc1, covered_cons.
    destruct (cd !! i); simpl; [|done]. f_equal.
    destruct (inRange (Z.of_nat i) (s, e)), (covered (Z.of_nat i) l); simpl;
      try done. apply setU_setU.
Qed.

Lemma deref_fresh cells (ranges : list range) :
  deref (cells ++ ranges) (seq (length cells) (length ranges)) = ranges.
Proof.
  apply list_eq. intros i. unfold deref. rewrite list_lookup_fmap.
  destruct (ranges !! i) as [r|] eqn:Hr.
  - rewrite lookup_seq_lt by (by eapply lookup_lt_Some). simpl.
    unfold readCell. rewrite (lookup_app_r cells ranges) by lia.
    replace (length cells + i - length cells)%nat with i by lia. by rewrite Hr.
  - rewrite lookup_seq_ge; [done|]. by apply lookup_ge_None.
Qed.

(** A list that is not cached is read from the store. *)
Lemma getSleepData_fresh u date st :
  getU u (sleepData st) !! date = None →
  let st1 := (getSleepData u date st).1 in
  deref (cells st1) (getSleepData u date st).2 = rangesOn (store st) u date
  ∧ store st1 = store st
  ∧ ∀ v, v ≠ u → getU v (sleepData st1) !! date = getU v (sleepData st) !! date.
Proof.
  intros Hc. unfold getSleepData, rangesOn. rewrite Hc.
  destruct (store st !! date ≫= getU u) as [ranges|]; cbn [fst snd default].
  - split_and!; [apply deref_fresh|done|].
    intros v Hv. rewrite lookup_setCached. rewrite decide_False; [done|].
    intros [? _]. congruence.
  - split_and!; [done..|].
    intros v Hv. rewrite lookup_setCached. rewrite decide_False; [done|].
    intros [? _]. congruence.
Qed.

(** With nothing cached for the day, the refresh shows the occupancy of
    the stored record. *)
Lemma updateDataAndRefreshChart_occupancy fuel date st :
  (∀ u, getU u (sleepData st) !! date = None) →
  match updateDataAndRefreshChart fuel date st with
  | Returns st' => occupancy fuel (store st) date = Finished (chart st')
  | Throws _ => occupancy fuel (store st) date = TypeError
  | Diverges => occupancy fuel (store st) date = Running
  end.
Proof.
  intros Hc. unfold updateDataAndRefreshChart, occupancy. cbn [chartUsers].
  destruct (getSleepData_fresh baby date st (Hc baby)) as (E1 & S1 & K1).
  destruct (getSleepData baby date st) as [st1 l1]. cbn [fst snd] in *.
  rewrite E1.
  destruct (markRanges fuel baby _ emptyChart) as [c1| |]; [|done..].
  destruct (getSleepData_fresh user1 date st1) as (E2 & S2 & K2).
  { by rewrite K1. }
  destruct (getSleepData user1 date st1) as [st2 l2]. cbn [fst snd] in *.
  rewrite E2, S1.
  destruct (markRanges fuel user1 _ c1) as [c2| |]; [|done..].
  destruct (getSleepData_fresh user2 date st2) as (E3 & S3 & K3).
  { rewrite K2, K1; done. }
  destruct (getSleepData user2 date st2) as [st3 l3]. cbn [fst snd] in *.
  rewrite E3, S2, S1.
  by destruct (markRanges fuel user2 _ c2) as [c3| |].
Qed.

Lemma occupancyAt_covered fuel s date u h :
  (24 < fuel)%nat → (h < 24)%nat →
  (∀ v, rangesInvariant (rangesOn s v date)
        ∧ Forall (λ r : range, r.2 ≤ 23) (rangesOn s v date)) →
  occupancyAt fuel s date u h
    = Some (Z.b2z (covered (Z.of_nat h) (rangesOn s u date))).
Proof.
  intros Hf Hh Hs. unfold occupancyAt, occupancy.
  destruct (Hs baby) as [Hb%chain_invariant Hb'].
  destruct (Hs user1) as [H1%chain_invariant H1'].
  destruct (Hs user2) as [H2%chain_invariant H2'].
  destruct (markRanges_covered fuel baby 0 _ emptyChart ltac:(lia) Hb Hb' Hf)
    as (c1 & -> & Hc1).
  destruct (markRanges_covered fuel user1 0 _ c1 ltac:(lia) H1 H1' Hf)
    as (c2 & -> & Hc2).
  destruct (markRanges_covered fuel user2 0 _ c2 ltac:(lia) H2 H2' Hf)
    as (c3 & -> & Hc3).
  rewrite Hc3, Hc2, Hc1. unfold emptyChart.
  rewrite lookup_replicate_2 by done. simpl.
  destruct u, (covered _ (rangesOn s baby date)),
    (covered _ (rangesOn s user1 date)), (covered _ (rangesOn s user2 date));
    reflexivity.
Qed.

Lemma countUser_covered fuel rec u sleepCounts :
  (24 < fuel)%nat →
  rangesInvariant (default [] (getU u rec)) →
  Forall (λ r : range, r.2 ≤ 23) (default [] (getU u rec)) →
  ∃ sleepCounts',
    countUser fuel rec u sleepCounts = Some sleepCounts'
    ∧ (∀ i, getU u sleepCounts' !! i
            = (λ c, c + Z.b2z (covered (Z.of_nat i) (default [] (getU u rec))))
                <$> getU u sleepCounts !! i)
    ∧ (∀ v, v ≠ u → getU v sleepCounts' = getU v sleepCounts).
Proof.
  intros Hf Hinv He. unfold countUser. destruct (getU u rec) as [l|]; simpl in *.
  - apply chain_invariant in Hinv.
    destruct (countRanges_covered fuel 0 l (getU u sleepCounts)
                ltac:(lia) Hinv He Hf) as (c & -> & Hc).
    eexists. split; [done|]. split.
    + intros i. by rewrite getU_setU.
    + intros v Hv. by rewrite getU_setU_ne.
  - exists sleepCounts. split; [done|]. split; [|done].
    intros i. destruct (getU u sleepCounts !! i); simpl; [|done]. f_equal. lia.
Qed.

Lemma countDay_covered fuel (s : gmap Z dayRecord) date sleepCounts :
  (24 < fuel)%nat →
  (∀ v, rangesInvariant (rangesOn s v date)
        ∧ Forall (λ r : range, r.2 ≤ 23) (rangesOn s v date)) →
  ∃ sleepCounts',
    countDay fuel (s !! date) sleepCounts = Some sleepCounts'
    ∧ ∀ u i, getU u sleepCounts' !! i
             = (λ c, c + Z.b2z (covered (Z.of_nat i) (rangesOn s u date)))
                 <$> getU u sleepCounts !! i.
Proof.
  intros Hf Hs. unfold rangesOn in *. unfold countDay.
  destruct (s !! date) as [rec|]; simpl in *.
  - destruct (Hs baby) as [Ib Eb], (Hs user1) as [I1 E1], (Hs user2) as [I2 E2].
    destruct (countUser_covered fuel rec baby sleepCounts Hf Ib Eb)
      as (c1 & -> & Hb & Hb').
    destruct (countUser_covered fuel rec user1 c1 Hf I1 E1)
      as (c2 & -> & H1 & H1').
    destruct (countUser_covered fuel rec user2 c2 Hf I2 E2)
      as (c3 & -> & H2 & H2').
    exists c3. split; [done|]. intros [] i.
    + by rewrite (H2' baby), (H1' baby), Hb.
    + by rewrite (H2' user1), H1, (Hb' user1).
    + by rewrite H2, (H1' user2), (Hb' user2).
  - exists sleepCounts. split; [done|]. intros u i.
    destruct (getU u sleepCounts !! i); simpl; [|done]. f_equal. lia.
Qed.

Lemma countDays_sum fuel (s : gmap Z dayRecord) endDate n sleepCounts :
  (24 < fuel)%nat → windowBefore24 s endDate n →
  ∃ sleepCounts',
    countDays fuel s endDate n sleepCounts = Some sleepCounts'
    ∧ ∀ u h, (h < 24)%nat →
        ∃ total, sumOccupancy fuel s endDate n u h = Some total
                 ∧ getU u sleepCounts' !! h
                   = (λ c, c + total) <$> getU u sleepCounts !! h.
Proof.
  intros Hf. revert sleepCounts.
  induction n as [|n IH]; intros counts Hw.
  - exists counts. split; [done|]. intros u h Hh. exists 0. split; [done|].
    destruct (getU u counts !! h); simpl; [|done]. f_equal. lia.
  - cbn [countDays sumOccupancy].
    assert (∀ v, rangesInvariant (rangesOn s v (endDate - Z.of_nat n))
                 ∧ Forall (λ r : range, r.2 ≤ 23)
                          (rangesOn s v (endDate - Z.of_nat n))) as Hday.
    { intros v. apply Hw. lia. }
    destruct (countDay_covered fuel s _ counts Hf Hday) as (c1 & -> & Hc1).
    destruct (IH c1) as (c2 & -> & Hc2).
    { intros i u Hi. apply Hw. lia. }
    exists c2. split; [done|]. intros u h Hh.
    destruct (Hc2 u h Hh) as (total & -> & Hsum).
    rewrite (occupancyAt_covered fuel s _ u h Hf Hh Hday).
    eexists. split; [done|]. rewrite Hsum, Hc1.
    destruct (getU u counts !! h); simpl; [|done]. f_equal. lia.
Qed.

(** Where no range of the days in question reaches hour 24, the
    aggregation returns, and each of its counts is the sum of the daily
    occupancies. *)
Lemma aggregate_sums_occupancy fuel (s : gmap Z dayRecord) endDate n :
  (24 < fuel)%nat → windowBefore24 s endDate n →
  ∃ sleepCounts,
    getSleepDataForRange fuel s endDate n = Some sleepCounts
    ∧ ∀ u h, (h < 24)%nat →
        sumOccupancy fuel s endDate n u h = getU u sleepCounts !! h.
Proof.
  intros Hf Hw. unfold getSleepDataForRange.
  destruct (countDays_sum fuel s endDate n (PerUser zeros zeros zeros) Hf Hw)
    as (counts & -> & Hc).
  exists counts. split; [done|]. intros u h Hh.
  destruct (Hc u h Hh) as (total & -> & ->).
  assert (getU u (PerUser zeros zeros zeros) !! h = Some 0) as ->.
  { destruct u; exact (lookup_replicate_2 24 0 h Hh). }
  reflexivity.
Qed.

(** * The claims *)

(** C1.  With [[[1, 3], [5, 6]]] stored for the baby, a list that
    satisfies the invariant, the calls that toggle hour 3 and then hour 4
    come back, the store holds what it held (no write of a toggle gets
    through), and the list that [getSleepData] returns afterwards is
    [[[1, 6], [5, 6]]]: the two ranges overlap.  The merge wrote its result
    to the array that the cached list shares and removed the absorbed range
    from the copy only. *)
Theorem toggle_sequence_breaks_invariant :
  rangesInvariant (visible baby 0 twoNapsState)
  ∧ (∃ st', toggleCalls 25 baby 0 [3; 4] twoNapsState = Some st'
            ∧ stored baby 0 st' = Some [(1, 3); (5, 6)]
            ∧ visible baby 0 st' = [(1, 6); (5, 6)])
  ∧ ¬ rangesInvariant [(1, 6); (5, 6)].
Proof.
  split_and!.
  - change (rangesInvariant [(1, 3); (5, 6)]).
    split; repeat constructor; simpl; lia.
  - eexists. split_and!; [by vm_compute|reflexivity..].
  - intros [_ Hapart _]. apply StronglySorted_inv in Hapart as [_ Hfirst].
    apply Forall_cons in Hfirst as [Hlt _]. simpl in Hlt. lia.
Qed.

(** C2.  With [[[5, 9]]] stored for the baby, two calls in a row that
    toggle hour 7 both come back; [getSleepData] returns [[[5, 7]]] after
    the first and [[[5, 8]]] after the second, so hour 8, covered before,
    is no longer covered.  The first call splits the range in place and
    keeps the new range [[8, 9]] in its copy only; the second extends the
    shortened range. *)
Theorem toggle_twice_loses_hour :
  visible baby 0 nightState = [(5, 9)]
  ∧ ∃ st1 st2,
      toggleSleepHour 25 false "baby" 7 0 nightState = Some (st1, JsUndefined)
      ∧ visible baby 0 st1 = [(5, 7)]
      ∧ toggleSleepHour 25 false "baby" 7 0 st1 = Some (st2, JsUndefined)
      ∧ visible baby 0 st2 = [(5, 8)]
      ∧ stored baby 0 st2 = Some [(5, 9)]
      ∧ covered 8 [(5, 9)] = true
      ∧ covered 8 (visible baby 0 st2) = false.
Proof.
  split; [reflexivity|].
  eexists. eexists.
  split_and!; [by vm_compute|reflexivity|by vm_compute|reflexivity..].
Qed.

(** C3.  On a list that satisfies the invariant, one toggle of [hour]
    flips the membership of [hour] and of no other hour: [hour] is covered
    afterwards iff it was not covered before, and every other hour is
    covered afterwards iff it was covered before.  (This holds for any
    [hour], within [[0, 24)] or not.) *)
Theorem toggle_flips_exactly_hour (hour : Z) (l : list range) (g : Z) :
  rangesInvariant l →
  covered g (toggleRanges hour l)
    = if g =? hour then negb (covered hour l) else covered g l.
Proof. apply toggleRanges_covered. Qed.

Lemma toggle_flips_exactly_hour_witness :
  rangesInvariant [(5, 9)]
  ∧ covered 7 (toggleRanges 7 [(5, 9)])
      = (if 7 =? 7 then negb (covered 7 [(5, 9)]) else covered 7 [(5, 9)]).
Proof.
  assert (rangesInvariant [(5, 9)]) as H0
    by (split; repeat constructor; simpl; lia).
  split; [exact H0|].
  exact (toggle_flips_exactly_hour 7 [(5, 9)] 7 H0).
Defined.

(** C4.  With [[[20, 23]]] stored for the baby, the toggle of hour 23
    extends the range in place to [[20, 24]], within [0 ≤ start < end ≤ 24];
    from there the circular stepping [hour = (hour + 1) % 24] never meets
    the end hour 24, in the daily view as in the aggregation: no amount of
    fuel lets either loop finish, and the call of [toggleSleepHour] does not
    come back from its refresh.  (On empty data the toggle of hour 23 does
    come back: the range [[23, 24]] is pushed to the copy only.) *)
Theorem stepping_to_24_never_ends :
  visible baby 0 eveningState = [(20, 23)]
  ∧ visible baby 0 (toggleAndSave false baby 23 0 eveningState) = [(20, 24)]
  ∧ (∀ fuel u chartData, markHours fuel u 20 24 chartData = Running)
  ∧ (∀ fuel counts, countHours fuel 20 24 counts = None)
  ∧ (∀ fuel, toggleSleepHour fuel false "baby" 23 0 eveningState = None)
  ∧ ∃ st', toggleSleepHour 25 false "baby" 23 0 emptyState
             = Some (st', JsUndefined)
           ∧ visible baby 0 st' = [].
Proof.
  split_and!.
  - reflexivity.
  - reflexivity.
  - intros. by apply markHours_end24.
  - intros. by apply countHours_end24.
  - intros fuel. unfold toggleSleepHour.
    change (lookupUser "baby") with (Some (Subject baby)). cbv iota.
    set (st2 := toggleAndSave false baby 23 0 eveningState).
    unfold updateChart, updateDataAndRefreshChart. cbn [chartUsers].
    assert (getSleepData baby 0 st2 = (st2, [0%nat])) as -> by reflexivity.
    assert (deref (cells st2) [0%nat] = [(20, 24)]) as -> by reflexivity.
    cbn [markRanges]. by rewrite markHours_end24.
  - eexists. split; [by vm_compute|reflexivity].
Qed.



(** The source [tidyRandom] is one that [Math.random()] can be, and a day
    that it generates. *)
Lemma unitInterval_tidyRandom : unitInterval tidyRandom.
Proof.
  intros n. unfold tidyRandom. generalize (n mod 12)%nat. intros k.
  do 11 (destruct k as [|k]; [split; [discriminate|reflexivity]|]).
  split; [discriminate|reflexivity].
Qed.

Example tidyStore_day :
  tidyStore !! 29
    = Some (PerUser (Some [(1, 3); (5, 7); (9, 11); (13, 15)])
                    (Some [(0, 6)]) (Some [(0, 6)])).
Proof. by vm_compute. Qed.

Lemma windowBefore24_tidyStore : windowBefore24 tidyStore 30 7.
Proof.
  intros i u Hi.
  do 7 (destruct i as [|i];
        [destruct u;
         match goal with
         | |- context [rangesOn ?s ?u ?d] =>
             let l := eval vm_compute in (rangesOn s u d) in
             change (rangesOn s u d) with l
         end;
         (split; [split|]; repeat constructor; simpl; lia)|]).
  lia.
Qed.


Lemma unitInterval_threeEighths : unitInterval threeEighths.
Proof. intros n. split; [discriminate|reflexivity]. Qed.

(** C6, as stated, fails: with [Math.random()] returning 0.375, the
    bulk generation writes for user1 the range [[23, 6]], whose end is
    below its start. *)
Lemma generated_range_ends_before_start :
  ∃ date rec l r,
    putDummyDays threeEighths 0 (0 - 60) 60 ∅ !! date = Some rec
    ∧ getU user1 rec = Some l ∧ r ∈ l ∧ r.2 <= r.1.
Proof.
  exists (-60), (PerUser (Some [(9, 12); (9, 12); (9, 12); (9, 12)])
                         (Some [(23, 6)]) (Some [(23, 6)])),
         [(23, 6)], (23, 6).
  split_and!; [by vm_compute|done|by left|simpl; lia].
Qed.

(** C6, amended.  Every range of the list that [toggleSleepHour] hands to
    [saveSleepData] for writing, starting from ranges within the day,
    satisfies [start < end]; every range that the bulk generation writes
    has both its hours in 0..23 and these differ, the end being allowed to
    lie numerically below the start (a sleep period across midnight). *)
Theorem written_ranges_shape (random : nat → Q) (currentDate : Z)
    (u : userKey) (hour : Z) (date : Z) (st : state) :
  unitInterval random →
  cacheOk st →
  Forall boundsOk (visible u date st) →
  0 <= hour < 24 →
  Forall (λ r : range, r.1 < r.2) (handedToSave u hour date st)
  ∧ map_Forall (λ _ rec, ∀ v l, getU v rec = Some l → Forall onClock l)
               (putDummyDays random 0 (currentDate - 60) 60 ∅).
Proof.
  intros Hr Hok Hb Hh. split.
  - rewrite handedToSave_eq by done.
    pose proof (toggleRanges_invariant hour _ Hh Hb) as [_ _ Hb'].
    eapply Forall_impl; [exact Hb'|]. unfold boundsOk. simpl. lia.
  - apply putDummyDays_onClock; [done|]. apply map_Forall_empty.
Qed.

Lemma written_ranges_shape_witness :
  Forall (λ r : range, r.1 < r.2) (handedToSave baby 23 0 nightState)
  ∧ map_Forall (λ _ rec, ∀ v l, getU v rec = Some l → Forall onClock l)
               (putDummyDays threeEighths 0 (0 - 60) 60 ∅).
Proof.
  apply (written_ranges_shape threeEighths 0 baby 23 0 nightState).
  - exact unitInterval_threeEighths.
  - intros [] date l; cbn; by rewrite lookup_empty.
  - change (Forall boundsOk [(5, 9)]). repeat constructor; simpl; lia.
  - lia.
Defined.

(** C7.  With [[[5, 7], [8, 10]]] stored, toggling hour 7 finds the hour
    in no range, extends the first range at its end to [[5, 8]] (the test
    [hour === end] comes before [hour + 1 === start]), and the
    sort-and-merge pass joins it with [[8, 10]]: the list handed to
    [saveSleepData] is [[[5, 10]]].  It is not stored: the write throws and
    is logged, the store holds [[[5, 7], [8, 10]]] as before, and the list
    that [getSleepData] returns afterwards is [[[5, 10], [8, 10]]]. *)
Theorem scenario4_extend_then_merge :
  removeHour 7 [(5, 7); (8, 10)] = None
  ∧ extendRange 7 [(5, 7); (8, 10)] = Some [(5, 8); (8, 10)]
  ∧ flipHour 7 [(5, 7); (8, 10)] = [(5, 8); (8, 10)]
  ∧ mergeRanges (sortByStart [(5, 8); (8, 10)]) = [(5, 10)]
  ∧ handedToSave baby 7 0 scenario4State = [(5, 10)]
  ∧ ∃ st',
      toggleSleepHour 25 false "baby" 7 0 scenario4State
        = Some (st', JsUndefined)
      ∧ errors st' = ["Error saving sleep data:"]
      ∧ stored baby 0 st' = Some [(5, 7); (8, 10)]
      ∧ visible baby 0 st' = [(5, 10); (8, 10)].
Proof.
  split_and!; [reflexivity..|].
  eexists. split_and!; [by vm_compute|reflexivity..].
Qed.

(** C8.  With [[[5, 9]]] stored and the write failing, the toggle of hour
    5 logs the failure and leaves the stored record as it was, but the
    list that [getSleepData] returns afterwards is [[[6, 9]]]: the start
    hour was incremented in the array that the cached list shares with
    [updatedRanges]. *)
Theorem failed_write_changes_cached_list :
  visible baby 0 nightState = [(5, 9)]
  ∧ ∃ st',
      toggleSleepHour 25 false "baby" 5 0 nightState = Some (st', JsUndefined)
      ∧ errors st' = ["Error saving sleep data:"]
      ∧ stored baby 0 st' = Some [(5, 9)]
      ∧ visible baby 0 st' = [(6, 9)].
Proof.
  split; [reflexivity|].
  eexists. split_and!; [by vm_compute|reflexivity..].
Qed.




Lemma countDays_naps fuel (s : gmap Z dayRecord) endDate n b u1 u2 :
  (3 ≤ fuel)%nat →
  (∀ i, (i < n)%nat → s !! (endDate - Z.of_nat i) = Some napRecord) →
  countDays fuel s endDate n (PerUser b u1 u2)
    = Some (PerUser (Nat.iter n (λ c, increment 1 (increment 0 c)) b) u1 u2).
Proof.
  intros Hf. destruct fuel as [|[|[|fuel]]]; try lia. clear Hf.
  revert b. induction n as [|n IH]; intros b Hs; [done|].
  cbn [countDays]. rewrite Hs by lia.
  rewrite Nat.iter_succ_r. rewrite <- IH by (intros; apply Hs; lia).
  reflexivity.
Qed.

Lemma napWeek_lookup i :
  (i < 7)%nat → napWeek !! (6 - Z.of_nat i) = Some napRecord.
Proof.
  intros Hi. do 7 (destruct i as [|i]; [reflexivity|]). lia.
Qed.

(** C10, as stated, fails: over the seven days with [baby = [[0, 2]]] the
    aggregation never yields the vector with 2 at hours 0 and 1. *)
Lemma week_of_naps_not_two :
  ¬ ∃ fuel, getSleepDataForRange fuel napWeek 6 7
            = Some (PerUser (2 :: 2 :: replicate 22 0) zeros zeros).
Proof.
  intros [fuel H]. destruct (le_lt_dec 3 fuel) as [Hf|Hf].
  - unfold getSleepDataForRange in H.
    rewrite (countDays_naps fuel napWeek 6 7 _ _ _ Hf napWeek_lookup) in H.
    vm_compute in H. discriminate.
  - destruct fuel as [|[|[|fuel]]]; [vm_compute in H; discriminate..|lia].
Qed.

(** C10, amended.  Over seven stored days that each hold [baby = [[0, 2]]]
    and nothing for the other subjects, the aggregation yields 7 (one per
    day) at hours 0 and 1 of the baby's vector and 0 at every other hour,
    and all-zero vectors for user1 and user2. *)
Theorem week_of_naps_counts_seven (fuel : nat) (s : gmap Z dayRecord)
    (endDate : Z) :
  (3 ≤ fuel)%nat →
  (∀ i, (i < 7)%nat → s !! (endDate - Z.of_nat i) = Some napRecord) →
  getSleepDataForRange fuel s endDate 7
    = Some (PerUser (7 :: 7 :: replicate 22 0) zeros zeros).
Proof.
  intros Hf Hs. unfold getSleepDataForRange.
  by rewrite (countDays_naps fuel s endDate 7 _ _ _ Hf Hs).
Qed.

Lemma week_of_naps_counts_seven_witness :
  getSleepDataForRange 3 napWeek 6 7
    = Some (PerUser (7 :: 7 :: replicate 22 0) zeros zeros).
Proof.
  exact (week_of_naps_counts_seven 3 napWeek 6 (le_n 3) napWeek_lookup).
Defined.

(** * Further properties of the code *)

(** ** What [getSleepData] returns *)

Lemma visible_eq u date st :
  visible u date st
    = match getU u (sleepData st) !! date with
      | Some l => deref (cells st) l
      | None => rangesOn (store st) u date
      end.
Proof.
  unfold visible, getSleepData, rangesOn.
  destruct (getU u (sleepData st) !! date); [done|].
  destruct (store st !! date ≫= getU u) as [ranges|]; cbn [fst snd default].
  - apply deref_fresh.
  - done.
Qed.

Lemma getSleepData_caches u date st :
  getU u (sleepData (getSleepData u date st).1) !! date
    = Some (getSleepData u date st).2.
Proof.
  unfold getSleepData.
  destruct (getU u (sleepData st) !! date) eqn:Hc; [done|].
  destruct (store st !! date ≫= getU u); cbn [fst snd];
    rewrite lookup_setCached; by rewrite decide_True.
Qed.

Lemma cacheOk_staleState : cacheOk staleState.
Proof.
  intros [] date l; cbn; [|by rewrite lookup_empty..].
  intros [_ <-]%lookup_singleton_Some. split.
  - apply NoDup_cons. split; [|apply NoDup_singleton].
    by intros ?%list_elem_of_singleton.
  - repeat constructor.
Qed.

(** X1.  Whatever list [getSleepData] returns for the subject and date, be
    it unsorted or overlapping (as a toggle can leave it in the cache), as
    long as each of its ranges satisfies [0 ≤ start < end ≤ 24]: the list
    that a toggle with an hour of [[0, 24)] hands to [saveSleepData]
    satisfies the standing invariant. *)
Theorem handed_list_is_normalised (u : userKey) (hour : Z) (date : Z)
    (st : state) :
  cacheOk st →
  Forall boundsOk (visible u date st) →
  0 <= hour < 24 →
  rangesInvariant (handedToSave u hour date st).
Proof.
  intros Hok Hb Hh. rewrite handedToSave_eq by done.
  by apply toggleRanges_invariant.
Qed.

Lemma handed_list_is_normalised_witness :
  visible baby 0 staleState = [(5, 10); (8, 10)]
  ∧ rangesInvariant (handedToSave baby 3 0 staleState).
Proof.
  split; [reflexivity|].
  apply (handed_list_is_normalised baby 3 0 staleState).
  - exact cacheOk_staleState.
  - change (Forall boundsOk [(5, 10); (8, 10)]).
    repeat (apply Forall_cons_2; [unfold boundsOk; simpl; lia|]).
    apply Forall_nil_2.
  - lia.
Defined.

(** ** The sort-and-merge pass and the clock *)

Lemma mergeFrom_forward rest a :
  a.1 <= a.2 → Forall (λ r : range, r.1 <= r.2) rest →
  Forall (λ r : range, r.1 <= r.2) (mergeFrom a rest).
Proof.
  revert a. induction rest as [|b rest IH]; intros a Ha Hrest.
  { by repeat constructor. }
  apply Forall_cons in Hrest as [Hb Hrest]. simpl.
  destruct (a.2 >=? b.1).
  - apply IH; [simpl; lia|done].
  - constructor; [done|by apply IH].
Qed.

Lemma sort_and_merge_forward (l : list range) :
  Forall (λ r : range, r.1 <= r.2) l →
  Forall (λ r : range, r.1 <= r.2) (mergeRanges (sortByStart l)).
Proof.
  intros Hl.
  assert (Forall (λ r : range, r.1 <= r.2) (sortByStart l)) as Hs.
  { unfold sortByStart. by rewrite sortBy_perm. }
  destruct (sortByStart l) as [|a rest]; [done|].
  apply Forall_cons in Hs as [Ha Hrest]. by apply mergeFrom_forward.
Qed.

Lemma onCircle_forward g (l : list range) :
  Forall (λ r : range, r.1 <= r.2) l →
  existsb (onCircle g) l = (0 <=? g) && (g <? 24) && covered g l.
Proof.
  induction 1 as [|r l Hr _ IH]; [by rewrite andb_false_r|].
  rewrite covered_cons. cbn [existsb]. rewrite IH.
  unfold onCircle, inRange. destruct (Z.leb_spec r.1 r.2); [|lia].
  destruct ((0 <=? g) && (g <? 24)); [done|]. by rewrite !andb_false_l.
Qed.

(** X2.  The sort-and-merge pass at the end of [toggleSleepHour] keeps, for
    any list, the hours [h] with [start ≤ h < end] for some range; when no
    range of the list ends below its start, it keeps the hours that the
    ranges visit on the 24-hour clock.  With a range across midnight it
    can drop such hours: [[[20, 23], [23, 2]]] becomes [[[20, 23]]], and the
    hours 23, 0 and 1 are no longer visited. *)
Theorem sort_and_merge_keeps_hours (g : Z) (l : list range) :
  covered g (mergeRanges (sortByStart l)) = covered g l
  ∧ (Forall (λ r : range, r.1 <= r.2) l →
     existsb (onCircle g) (mergeRanges (sortByStart l))
       = existsb (onCircle g) l)
  ∧ mergeRanges (sortByStart [(20, 23); (23, 2)]) = [(20, 23)]
  ∧ (∀ h, h ∈ [23; 0; 1] →
          existsb (onCircle h) [(20, 23); (23, 2)] = true
          ∧ existsb (onCircle h) [(20, 23)] = false).
Proof.
  assert (covered g (mergeRanges (sortByStart l)) = covered g l) as Hcov.
  { rewrite mergeRanges_covered by apply sortByStart_sorted.
    apply covered_perm, sortBy_perm. }
  split_and!.
  - exact Hcov.
  - intros Hl. rewrite !onCircle_forward, Hcov; [done..|].
    by apply sort_and_merge_forward.
  - reflexivity.
  - intros h Hh. repeat (apply elem_of_cons in Hh as [->|Hh]; [by split|]).
    by apply elem_of_nil in Hh.
Qed.

(** X3.  When no two entries of the list are the same array, the in-place
    updates of [toggleSleepHour] leave the list that the same steps give on
    copies; the final list is again without sharing, and no array outside
    the list is written to. *)
Theorem in_place_toggle_agrees_with_values (hour : Z) (cells : list range)
    (l : list nat) :
  distinctCells cells l →
  deref (toggleCells hour cells l).1 (toggleCells hour cells l).2
    = toggleRanges hour (deref cells l)
  ∧ distinctCells (toggleCells hour cells l).1 (toggleCells hour cells l).2
  ∧ ∀ q, q ∉ l → (q < length cells)%nat →
         (toggleCells hour cells l).1 !! q = cells !! q.
Proof.
  intros Hd. destruct (toggleCells_refines hour cells l Hd) as [Heq Hev].
  split; [done|]. split; [apply Hev|]. apply Hev.
Qed.

Lemma in_place_toggle_agrees_with_values_witness :
  deref (toggleCells 7 [(0, 2); (5, 7); (8, 10)] [1; 2]%nat).1
        (toggleCells 7 [(0, 2); (5, 7); (8, 10)] [1; 2]%nat).2
    = toggleRanges 7 (deref [(0, 2); (5, 7); (8, 10)] [1; 2]%nat)
  ∧ distinctCells (toggleCells 7 [(0, 2); (5, 7); (8, 10)] [1; 2]%nat).1
                  (toggleCells 7 [(0, 2); (5, 7); (8, 10)] [1; 2]%nat).2
  ∧ ∀ q, q ∉ [1; 2]%nat → (q < length [(0, 2); (5, 7); (8, 10)])%nat →
         (toggleCells 7 [(0, 2); (5, 7); (8, 10)] [1; 2]%nat).1 !! q
           = [(0, 2); (5, 7); (8, 10)] !! q.
Proof.
  apply (in_place_toggle_agrees_with_values 7 [(0, 2); (5, 7); (8, 10)]
           [1; 2]%nat).
  split.
  - apply NoDup_cons. split; [|apply NoDup_singleton].
    by intros ?%list_elem_of_singleton.
  - repeat constructor.
Defined.

(** With the same array twice in the list the two differ: the hypothesis
    of X3 is needed. *)
Example shared_cell_breaks_agreement :
  deref (toggleCells 5 [(5, 9)] [0; 0]%nat).1 (toggleCells 5 [(5, 9)] [0; 0]%nat).2
    = [(6, 9)]
  ∧ toggleRanges 5 (deref [(5, 9)] [0; 0]%nat) = [(5, 9)].
Proof. split; reflexivity. Qed.

(** X4.  A list that [getSleepData] has returned once is served from the
    cache from then on: a second call returns the same list and leaves the
    state as it is, and so does a call after the store has been replaced
    behind the cache (nothing invalidates a cached list). *)
Theorem cached_list_is_never_reread (u : userKey) (date : Z) (st : state)
    (s : gmap Z dayRecord) :
  getSleepData u date (getSleepData u date st).1 = getSleepData u date st
  ∧ getSleepData u date (setStore s (getSleepData u date st).1)
      = (setStore s (getSleepData u date st).1, (getSleepData u date st).2).
Proof.
  pose proof (getSleepData_caches u date st) as Hc. split.
  - rewrite (getSleepData_cached _ _ _ _ Hc). by destruct (getSleepData u date st).
  - by apply getSleepData_cached.
Qed.

(** X5.  A list that is not cached is read from the store: [getSleepData]
    returns the list of the subject in the record of the date, and the
    empty list when the store has no record for the date or the record no
    list for the subject; the store is not written to. *)
Theorem first_read_comes_from_store (u : userKey) (date : Z) (st : state) :
  getU u (sleepData st) !! date = None →
  visible u date st = default [] (stored u date st)
  ∧ store (getSleepData u date st).1 = store st.
Proof.
  intros Hc. destruct (getSleepData_fresh u date st Hc) as (Hv & Hs & _).
  split; [|done]. exact Hv.
Qed.

Lemma first_read_comes_from_store_witness :
  visible baby 0 nightState = default [] (stored baby 0 nightState)
  ∧ store (getSleepData baby 0 nightState).1 = store nightState.
Proof.
  apply (first_read_comes_from_store baby 0 nightState). apply lookup_empty.
Defined.

Lemma inheritedKeys_spec k :
  existsb (String.eqb k) inheritedKeys = true ↔ k ∈ inheritedKeys.
Proof.
  rewrite existsb_exists. split.
  - intros (x & Hin & ->%String.eqb_eq). by apply list_elem_of_In.
  - intros Hin. exists k. split; [by apply list_elem_of_In|].
    apply String.eqb_refl.
Qed.

Lemma lookupUser_other k :
  k ≠ "baby" → k ≠ "user1" → k ≠ "user2" →
  lookupUser k
    = if existsb (String.eqb k) inheritedKeys then Some Inherited else None.
Proof.
  intros H0 H1 H2. unfold lookupUser.
  by rewrite (proj2 (String.eqb_neq _ _) H0), (proj2 (String.eqb_neq _ _) H1),
    (proj2 (String.eqb_neq _ _) H2).
Qed.

(** X7.  For a key other than 'baby', 'user1' and 'user2',
    [toggleSleepHour] changes neither cache, store nor chart and evaluates
    to [undefined].  It logs "Invalid userKey:" unless the key names a
    property that [userData] inherits from [Object.prototype]
    ('constructor', 'toString', '__proto__', ...): such a key passes the
    guard, [getSleepData] throws, and "Error in toggleSleepHour:" is logged
    instead. *)
Theorem unknown_subject_is_logged_noop (fuel : nat) (putOk : bool)
    (k : string) (hour : Z) (date : Z) (st : state) :
  k ≠ "baby" → k ≠ "user1" → k ≠ "user2" →
  (k ∉ inheritedKeys →
   toggleSleepHour fuel putOk k hour date st
     = Some (consoleError "Invalid userKey:" st, JsUndefined))
  ∧ (k ∈ inheritedKeys →
     toggleSleepHour fuel putOk k hour date st
       = Some (consoleError "Error in toggleSleepHour:" st, JsUndefined)).
Proof.
  intros H0 H1 H2. unfold toggleSleepHour.
  rewrite (lookupUser_other k H0 H1 H2).
  pose proof (inheritedKeys_spec k) as Hk.
  destruct (existsb (String.eqb k) inheritedKeys).
  - split; [|done]. intros Hn. destruct Hn. by apply Hk.
  - split; [done|]. intros Hin. apply Hk in Hin. done.
Qed.

Lemma unknown_subject_is_logged_noop_witness :
  toggleSleepHour 25 false "" 5 0 nightState
    = Some (consoleError "Invalid userKey:" nightState, JsUndefined)
  ∧ toggleSleepHour 25 false "constructor" 5 0 nightState
    = Some (consoleError "Error in toggleSleepHour:" nightState, JsUndefined).
Proof.
  split.
  - apply (unknown_subject_is_logged_noop 25 false "" 5 0 nightState);
      [done..|].
    intros Hin%inheritedKeys_spec. discriminate Hin.
  - apply (unknown_subject_is_logged_noop 25 false "constructor" 5 0
             nightState); [done..|].
    by apply inheritedKeys_spec.
Defined.

(** ** A failed write *)


Lemma cacheOk_nightState : cacheOk nightState.
Proof. intros [] date l; cbn; by rewrite lookup_empty. Qed.

Lemma clockOk_nightState : clockOk 0 nightState.
Proof.
  split; [constructor|]. intros [] l H; vm_compute in H; try discriminate.
  injection H as <-. repeat constructor; simpl; lia.
Qed.


(** ** Lists of other subjects and dates *)

Lemma visible_other_fields st st' u date :
  cells st' = cells st → sleepData st' = sleepData st → store st' = store st →
  visible u date st' = visible u date st.
Proof. intros Hc Hs Hst. rewrite !visible_eq. by rewrite Hc, Hs, Hst. Qed.

Lemma visible_getSleepData v d' w d st :
  cacheOk st → visible v d' (getSleepData w d st).1 = visible v d' st.
Proof.
  intros Hok. rewrite !visible_eq. unfold getSleepData.
  destruct (getU w (sleepData st) !! d) as [l|] eqn:Hc; [done|].
  unfold rangesOn.
  destruct (store st !! d ≫= getU w) as [ranges|] eqn:Hs; cbn [fst].
  - rewrite lookup_setCached. cbn [cells store setCached setCells].
    destruct (decide (w = v ∧ d = d')) as [[<- <-]|Hne].
    + by rewrite Hc, Hs, deref_fresh.
    + cbn [sleepData setCells].
      destruct (getU v (sleepData st) !! d') as [l'|] eqn:Hv; [|done].
      apply deref_app, (Hok _ _ _ Hv).
  - rewrite lookup_setCached. cbn [cells store setCached].
    destruct (decide (w = v ∧ d = d')) as [[<- <-]|Hne]; [|done].
    by rewrite Hc, Hs.
Qed.

Lemma getSleepData_separate w d st :
  cacheOk st → cacheSeparate st → cacheSeparate (getSleepData w d st).1.
Proof.
  intros Hok Hsep. unfold getSleepData.
  destruct (getU w (sleepData st) !! d) as [l|] eqn:Hc; [done|].
  assert (∀ lnew,
            (∀ p, p ∈ lnew → (length (cells st) ≤ p)%nat) →
            ∀ st0, sleepData st0 = sleepData st →
            cacheSeparate (setCached w d lnew st0)) as Hnew.
  { intros lnew Hfresh st0 Hst0 u1 d1 l1 u2 d2 l2 Hne.
    rewrite !lookup_setCached, Hst0.
    destruct (decide (w = u1 ∧ d = d1)) as [[<- <-]|H1];
      destruct (decide (w = u2 ∧ d = d2)) as [[<- <-]|H2]; try done.
    - intros [= <-] H2' p Hp Hp'.
      destruct (Hok _ _ _ H2') as [_ Hb].
      eapply Forall_forall in Hb; [|exact Hp']. specialize (Hfresh p Hp).
      simpl in Hb. lia.
    - intros H1' [= <-] p Hp Hp'.
      destruct (Hok _ _ _ H1') as [_ Hb].
      eapply Forall_forall in Hb; [|exact Hp]. specialize (Hfresh p Hp').
      simpl in Hb. lia.
    - by apply Hsep. }
  destruct (store st !! d ≫= getU w) as [ranges|]; cbn [fst].
  - apply Hnew; [|done]. intros p [Hp _]%elem_of_seq. exact Hp.
  - apply Hnew; [|done]. intros p Hp. by apply elem_of_nil in Hp.
Qed.

Lemma stored_after_save putOk u date l st v d' :
  (u, date) ≠ (v, d') →
  stored v d' (saveSleepData putOk u date l st) = stored v d' st.
Proof.
  intros Hne. unfold saveSleepData, stored. destruct putOk; [|done].
  cbn [store setCached setStore].
  destruct (decide (date = d')) as [<-|Hd]; [|by rewrite lookup_insert_ne].
  rewrite lookup_insert_eq. cbn.
  rewrite getU_setU_ne by congruence.
  destruct (store st !! date); [done|by destruct v].
Qed.

Lemma cached_after_save putOk u date l st v d' :
  (u, date) ≠ (v, d') →
  getU v (sleepData (saveSleepData putOk u date l st)) !! d'
    = getU v (sleepData st) !! d'.
Proof.
  intros Hne. unfold saveSleepData. destruct putOk; [|done].
  rewrite lookup_setCached. rewrite decide_False; [done|].
  intros [-> ->]. done.
Qed.

(** The toggle of one list leaves the other lists as they are, in the cache
    and in the store. *)
Lemma toggleAndSave_frame putOk u hour date st v d' :
  cacheOk st → cacheSeparate st → (u, date) ≠ (v, d') →
  visible v d' (toggleAndSave putOk u hour date st) = visible v d' st
  ∧ stored v d' (toggleAndSave putOk u hour date st) = stored v d' st.
Proof.
  intros Hok Hsep Hne. unfold toggleAndSave.
  destruct (getSleepData_spec u date st Hok) as (Hext & Hok1 & Hc1 & _).
  pose proof (getSleepData_separate u date st Hok Hsep) as Hsep1.
  pose proof (visible_getSleepData v d' u date st Hok) as Hvis1.
  destruct (getSleepData u date st) as [st1 l]. cbn [fst snd] in *.
  destruct (toggleCells_refines hour (cells st1) l (Hok1 _ _ _ Hc1))
    as [_ Hev].
  destruct (toggleCells hour (cells st1) l) as [cells2 l2]. cbn [fst snd] in *.
  split.
  - rewrite <- Hvis1, !visible_eq, cached_after_save by done.
    cbn [sleepData setCells].
    destruct (getU v (sleepData st1) !! d') as [l'|] eqn:Hv.
    + assert (cells (saveSleepData putOk u date l2 (setCells cells2 st1))
              = cells2) as -> by (by destruct putOk).
      destruct (Hok1 _ _ _ Hv) as [_ Hb].
      apply list_fmap_ext. intros i q Hq. unfold readCell.
      rewrite (ev_frame _ _ _ _ Hev); [done| |].
      * intros Hin. eapply (Hsep1 v d' l' u date l); [congruence|done..| |done].
        by eapply list_elem_of_lookup_2.
      * eapply Forall_lookup_1 in Hb; [exact Hb|exact Hq].
    + unfold rangesOn.
      pose proof (stored_after_save putOk u date l2 (setCells cells2 st1) v d' Hne)
        as Hs. unfold stored in Hs. by rewrite Hs.
  - rewrite stored_after_save by done. unfold stored. cbn [store setCells].
    by rewrite (ext_store _ _ Hext).
Qed.

Lemma toggleAndSave_cacheOk putOk u hour date st :
  cacheOk st → cacheOk (toggleAndSave putOk u hour date st).
Proof.
  intros Hok. destruct putOk.
  - apply (toggleAndSave_spec u hour date st Hok).
  - apply (toggleAndSave_failed u hour date st Hok).
Qed.

Lemma toggleAndSave_separate putOk u hour date st :
  cacheOk st → cacheSeparate st →
  cacheSeparate (toggleAndSave putOk u hour date st).
Proof.
  intros Hok Hsep. unfold toggleAndSave.
  destruct (getSleepData_spec u date st Hok) as (_ & Hok1 & Hc1 & _).
  pose proof (getSleepData_separate u date st Hok Hsep) as Hsep1.
  destruct (getSleepData u date st) as [st1 l]. cbn [fst snd] in *.
  destruct (toggleCells_refines hour (cells st1) l (Hok1 _ _ _ Hc1))
    as [_ Hev].
  destruct (toggleCells hour (cells st1) l) as [cells2 l2]. cbn [fst snd] in *.
  unfold saveSleepData. destruct putOk; [|exact Hsep1].
  intros u1 d1 l1 u2 d2 l2' Hne. rewrite !lookup_setCached.
  cbn [sleepData setStore setCells].
  assert (∀ w dw lw p, (u, date) ≠ (w, dw) →
            getU w (sleepData st1) !! dw = Some lw → p ∈ l2 → p ∉ lw) as Hfresh.
  { intros w dw lw p Hw Hlw Hp Hp'.
    destruct (Hok1 _ _ _ Hlw) as [_ Hb].
    destruct (ev_locs _ _ _ _ Hev p Hp) as [Hold|Hnew].
    - by eapply (Hsep1 u date l w dw lw).
    - eapply Forall_forall in Hb; [|exact Hp']. simpl in Hb. lia. }
  destruct (decide (u = u1 ∧ date = d1)) as [[<- <-]|H1];
    destruct (decide (u = u2 ∧ date = d2)) as [[<- <-]|H2]; try done.
  - intros [= <-] Hl2 p Hp. by eapply Hfresh.
  - intros Hl1 [= <-] p Hp Hp'. eapply (Hfresh u1 d1 l1 p); [|done..].
    intros [= -> ->]. tauto.
  - by apply Hsep1.
Qed.

Lemma chartUsers_keeps fuel date users chartData st :
  cacheOk st → cacheSeparate st →
  match chartUsers fuel date users chartData st with
  | Returns st' | Throws st' =>
      cacheOk st' ∧ cacheSeparate st' ∧ store st' = store st
      ∧ ∀ v d', visible v d' st' = visible v d' st
  | Diverges => True
  end.
Proof.
  revert chartData st. induction users as [|u users IH]; intros cd st Hok Hsep.
  { split_and!; [done..|]. intros v d'. by apply visible_other_fields. }
  cbn [chartUsers].
  destruct (getSleepData_spec u date st Hok) as (Hext & Hok1 & _ & _).
  pose proof (getSleepData_separate u date st Hok Hsep) as Hsep1.
  assert (∀ v d', visible v d' (getSleepData u date st).1 = visible v d' st)
    as Hvis1 by (intros; by apply visible_getSleepData).
  destruct (getSleepData u date st) as [st1 l]. cbn [fst snd] in *.
  destruct (markRanges fuel u (deref (cells st1) l) cd) as [cd'| |]; [| |done].
  - specialize (IH cd' st1 Hok1 Hsep1).
    destruct (chartUsers fuel date users cd' st1) as [st'|st'|]; [| |done];
      destruct IH as (? & ? & Hs & Hv); split_and!; try done;
      try (by rewrite Hs, (ext_store _ _ Hext));
      intros v d'; by rewrite Hv, Hvis1.
  - split_and!; [done..|by apply Hext|done].
Qed.

(** X9.  A toggle for one subject and date, whether its write succeeds or
    fails, changes neither the list that [getSleepData] returns for any
    other subject or date, nor what the store holds for it: directly after
    the save, and when the call has come back from its refresh. *)
Theorem toggle_leaves_other_lists (putOk : bool) (u : userKey) (hour : Z)
    (date : Z) (st : state) (v : userKey) (d' : Z) :
  cacheOk st → cacheSeparate st → (u, date) ≠ (v, d') →
  (visible v d' (toggleAndSave putOk u hour date st) = visible v d' st
   ∧ stored v d' (toggleAndSave putOk u hour date st) = stored v d' st)
  ∧ ∀ fuel st' r,
      toggleSleepHour fuel putOk (keyName u) hour date st = Some (st', r) →
      visible v d' st' = visible v d' st ∧ stored v d' st' = stored v d' st.
Proof.
  intros Hok Hsep Hne.
  destruct (toggleAndSave_frame putOk u hour date st v d' Hok Hsep Hne)
    as [Hv Hs].
  split; [done|]. intros fuel st' r. unfold toggleSleepHour.
  rewrite lookupUser_keyName.
  pose proof (chartUsers_keeps fuel date [baby; user1; user2] emptyChart _
                (toggleAndSave_cacheOk putOk u hour date st Hok)
                (toggleAndSave_separate putOk u hour date st Hok Hsep)) as Hc.
  unfold updateChart, updateDataAndRefreshChart.
  destruct (chartUsers fuel date [baby; user1; user2] emptyChart _)
    as [st3|st3|]; [| |done]; intros [= <- <-];
    destruct Hc as (_ & _ & Hst & Hvis).
  - split; [by rewrite Hvis|]. unfold stored in *. by rewrite Hst.
  - split.
    + rewrite <- Hv, <- Hvis. by apply visible_other_fields.
    + unfold stored in *. cbn [store consoleError]. by rewrite Hst.
Qed.

Lemma cacheOk_twoSubjectsState : cacheOk twoSubjectsState.
Proof.
  intros [] date l; cbn; [| |by rewrite lookup_empty];
    intros [_ <-]%lookup_singleton_Some;
    (split; [apply NoDup_singleton|repeat constructor]).
Qed.

Lemma cacheSeparate_twoSubjectsState : cacheSeparate twoSubjectsState.
Proof.
  intros u1 d1 l1 u2 d2 l2 Hne H1 H2 p Hp Hp'.
  destruct u1, u2; cbn in H1, H2;
    rewrite ?lookup_empty in H1; rewrite ?lookup_empty in H2; try done;
    apply lookup_singleton_Some in H1 as [<- <-];
    apply lookup_singleton_Some in H2 as [<- <-]; try done;
    apply list_elem_of_singleton in Hp; apply list_elem_of_singleton in Hp';
    congruence.
Qed.

Lemma cacheSeparate_emptyState : cacheSeparate emptyState.
Proof.
  intros u1 d1 l1 u2 d2 l2 _ H1. destruct u1; cbn in H1;
    by rewrite lookup_empty in H1.
Qed.

Lemma toggle_leaves_other_lists_witness :
  (visible user1 0 (toggleAndSave false baby 5 0 twoSubjectsState)
     = visible user1 0 twoSubjectsState
   ∧ stored user1 0 (toggleAndSave false baby 5 0 twoSubjectsState)
       = stored user1 0 twoSubjectsState)
  ∧ ∀ fuel st' r,
      toggleSleepHour fuel false (keyName baby) 5 0 twoSubjectsState
        = Some (st', r) →
      visible user1 0 st' = visible user1 0 twoSubjectsState
      ∧ stored user1 0 st' = stored user1 0 twoSubjectsState.
Proof.
  apply (toggle_leaves_other_lists false baby 5 0 twoSubjectsState user1 0).
  - exact cacheOk_twoSubjectsState.
  - exact cacheSeparate_twoSubjectsState.
  - discriminate.
Defined.

(** X10.  No two cached lists ever come to share an array, and no cached
    list holds the same array twice: both hold before anything is read, and
    a toggle keeps them, whether its write succeeds or fails. *)
Theorem toggle_keeps_lists_apart (putOk : bool) (u : userKey) (hour : Z)
    (date : Z) (st : state) :
  cacheOk st → cacheSeparate st →
  (cacheOk (toggleAndSave putOk u hour date st)
   ∧ cacheSeparate (toggleAndSave putOk u hour date st))
  ∧ ∀ fuel st' r,
      toggleSleepHour fuel putOk (keyName u) hour date st = Some (st', r) →
      cacheOk st' ∧ cacheSeparate st'.
Proof.
  intros Hok Hsep.
  pose proof (toggleAndSave_cacheOk putOk u hour date st Hok) as Hok2.
  pose proof (toggleAndSave_separate putOk u hour date st Hok Hsep) as Hsep2.
  split; [done|]. intros fuel st' r. unfold toggleSleepHour.
  rewrite lookupUser_keyName.
  pose proof (chartUsers_keeps fuel date [baby; user1; user2] emptyChart _
                Hok2 Hsep2) as Hc.
  unfold updateChart, updateDataAndRefreshChart.
  destruct (chartUsers fuel date [baby; user1; user2] emptyChart _)
    as [st3|st3|]; [| |done]; intros [= <- <-];
    destruct Hc as (Hok3 & Hsep3 & _); by split.
Qed.

Lemma toggle_keeps_lists_apart_witness :
  (cacheOk (toggleAndSave false baby 7 0 twoSubjectsState)
   ∧ cacheSeparate (toggleAndSave false baby 7 0 twoSubjectsState))
  ∧ ∃ st',
      toggleSleepHour 25 false (keyName baby) 7 0 twoSubjectsState
        = Some (st', JsUndefined)
      ∧ visible baby 0 st' = [(5, 7)]
      ∧ visible user1 0 st' = [(1, 3)]
      ∧ cacheOk st' ∧ cacheSeparate st'.
Proof.
  destruct (toggle_keeps_lists_apart false baby 7 0 twoSubjectsState
              cacheOk_twoSubjectsState cacheSeparate_twoSubjectsState)
    as [Hnow Hback].
  split; [exact Hnow|].
  destruct (toggleSleepHour 25 false (keyName baby) 7 0 twoSubjectsState)
    as [[st' v]|] eqn:Hcall; [|by vm_compute in Hcall].
  assert (v = JsUndefined) as -> by (by eapply toggleSleepHour_undefined).
  exists st'. split; [done|].
  assert (Some (st', JsUndefined)
          = toggleSleepHour 25 false (keyName baby) 7 0 twoSubjectsState)
    as Hst' by done.
  vm_compute in Hst'. injection Hst' as ->.
  split_and!; [reflexivity..| |]; by apply (Hback 25%nat _ JsUndefined).
Defined.

Lemma pushRanges_length random pos n : length (pushRanges random pos n) = n.
Proof.
  revert pos. induction n as [|n IH]; intros pos; simpl; [done|].
  by rewrite IH.
Qed.

Lemma generateRandomSleepRanges_shape random pos numRanges :
  length (generateRandomSleepRanges random pos numRanges).1 = numRanges
  ∧ StronglySorted (λ a b : range, a.1 ≤ b.1)
                   (generateRandomSleepRanges random pos numRanges).1
  ∧ (generateRandomSleepRanges random pos numRanges).2
      = (pos + 2 * numRanges)%nat.
Proof.
  unfold generateRandomSleepRanges.
  destruct (Nat.eqb_spec numRanges 1) as [->|Hne]; cbn [fst snd].
  - split_and!; [done|apply sortByStart_sorted|lia].
  - split_and!; [|apply sortByStart_sorted|done].
    unfold sortByStart. by rewrite sortBy_perm, pushRanges_length.
Qed.

(** X11.  [generateRandomSleepRanges(numRanges)] returns [numRanges]
    ranges, sorted ascending by start hour, and draws two random values per
    range. *)
Theorem generated_ranges_sorted (random : nat → Q) (pos : nat)
    (numRanges : nat) :
  length (generateRandomSleepRanges random pos numRanges).1 = numRanges
  ∧ StronglySorted (λ a b : range, a.1 ≤ b.1)
                   (generateRandomSleepRanges random pos numRanges).1
  ∧ (generateRandomSleepRanges random pos numRanges).2
      = (pos + 2 * numRanges)%nat.
Proof. apply generateRandomSleepRanges_shape. Qed.

Lemma putDummyDays_lookup random pos d0 n (s : gmap Z dayRecord) d :
  (d0 <= d < d0 + Z.of_nat n →
   ∃ rec, putDummyDays random pos d0 n s !! d = Some rec ∧ dummyShape rec)
  ∧ (¬ d0 <= d < d0 + Z.of_nat n →
     putDummyDays random pos d0 n s !! d = s !! d).
Proof.
  revert pos d0 s. induction n as [|n IH]; intros pos d0 s.
  { split; [lia|done]. }
  cbn [putDummyDays].
  destruct (generateRandomSleepRanges_shape random pos 4) as (Lb & Sb & _).
  destruct (generateRandomSleepRanges random pos 4) as [b pos1].
  destruct (generateRandomSleepRanges_shape random pos1 1) as (L1 & _ & _).
  destruct (generateRandomSleepRanges random pos1 1) as [u1 pos2].
  destruct (generateRandomSleepRanges_shape random pos2 1) as (L2 & _ & _).
  destruct (generateRandomSleepRanges random pos2 1) as [u2 pos3].
  cbn [fst] in *.
  destruct (IH pos3 (d0 + 1) (<[d0:=PerUser (Some b) (Some u1) (Some u2)]> s))
    as [Hin Hout].
  split.
  - intros Hd. destruct (decide (d = d0)) as [->|Hne].
    + rewrite Hout by lia. rewrite lookup_insert_eq.
      eexists. split; [done|]. by exists b, u1, u2.
    + apply Hin. lia.
  - intros Hd. rewrite Hout by lia. apply lookup_insert_ne. lia.
Qed.

(** X12.  After [generateDummyData] the store holds a record for each of
    the sixty days before the current date, with four ranges for the baby
    (sorted by start hour) and one range for each adult, and no record for
    any other day: what was stored before is gone, and the current date
    itself has no record. *)
Theorem generated_store_has_sixty_days (random : nat → Q) (currentDate : Z)
    (d : Z) :
  (currentDate - 60 <= d < currentDate →
   ∃ rec, putDummyDays random 0 (currentDate - 60) 60 ∅ !! d = Some rec
          ∧ dummyShape rec)
  ∧ (¬ currentDate - 60 <= d < currentDate →
     putDummyDays random 0 (currentDate - 60) 60 ∅ !! d = None).
Proof.
  destruct (putDummyDays_lookup random 0 (currentDate - 60) 60 ∅ d)
    as [Hin Hout].
  split.
  - intros Hd. apply Hin. lia.
  - intros Hd. rewrite Hout by lia. apply lookup_empty.
Qed.



(** In that state the list returned for the baby on day 0 is still
    [[[5, 9]]], while the store now holds the generated [[[9, 12]]] four
    times. *)
Example regeneration_example :
  ∃ st',
    generateDummyData 25 threeEighths 30 (getSleepData baby 0 nightState).1
      = Returns st'
    ∧ visible baby 0 st' = [(5, 9)]
    ∧ stored baby 0 st' = Some [(9, 12); (9, 12); (9, 12); (9, 12)].
Proof. eexists. split_and!; [by vm_compute|by vm_compute..]. Qed.

(** ** Stepping round the clock *)

Lemma next_hour_cases s :
  0 <= s < 24 →
  Z.rem (s + 1) 24 = s + 1 ∧ s < 23 ∨ Z.rem (s + 1) 24 = 0 ∧ s = 23.
Proof. intros. Z.quot_rem_to_equations. lia. Qed.

Lemma onCircle_step s e h :
  0 <= s < 24 → 0 <= e < 24 → s ≠ e → 0 <= h →
  onCircle h (s, e) = (h =? s) || onCircle h (Z.rem (s + 1) 24, e).
Proof.
  intros Hs He Hne Hh.
  destruct (next_hour_cases s Hs) as [[-> ?]|[-> ?]];
    unfold onCircle; cbn [fst snd]; cmp.
Qed.

Lemma onCircle_empty e h : onCircle h (e, e) = false.
Proof. unfold onCircle. cbn [fst snd]. cmp. Qed.

Lemma steps_left s e n :
  0 <= s < 24 → 0 <= e < 24 → (e - s) `mod` 24 = Z.of_nat (S n) →
  s ≠ e ∧ (e - Z.rem (s + 1) 24) `mod` 24 = Z.of_nat n.
Proof.
  intros Hs He Hn. split.
  - intros ->. rewrite Z.sub_diag, Z.mod_0_l in Hn by lia. lia.
  - revert Hn. Z.div_mod_to_equations. Z.quot_rem_to_equations. lia.
Qed.

Lemma countHours_circle fuel s e counts :
  0 <= s < 24 → 0 <= e < 24 → (24 < fuel)%nat →
  ∃ counts',
    countHours fuel s e counts = Some counts'
    ∧ ∀ i, counts' !! i
           = (λ c, c + Z.b2z (onCircle (Z.of_nat i) (s, e))) <$> counts !! i.
Proof.
  intros Hs He Hf.
  assert (∃ n, (e - s) `mod` 24 = Z.of_nat n ∧ (n < fuel)%nat)
    as (n & Hn & Hlt).
  { exists (Z.to_nat ((e - s) `mod` 24)).
    pose proof (Z.mod_pos_bound (e - s) 24 ltac:(lia)). lia. }
  clear Hf. revert fuel s counts Hs Hn Hlt.
  induction n as [|n IH]; intros [|fuel] s counts Hs Hn Hlt; try lia;
    cbn [countHours].
  - assert (s = e) as -> by (revert Hn; Z.div_mod_to_equations; lia).
    rewrite Z.eqb_refl. exists counts. split; [done|]. intros i.
    rewrite onCircle_empty. destruct (counts !! i); simpl; [|done].
    f_equal. lia.
  - destruct (steps_left s e n Hs He Hn) as [Hne Hn'].
    destruct (Z.eqb_spec s e); [done|].
    destruct (IH fuel (Z.rem (s + 1) 24) (increment s counts))
      as (counts' & -> & Hc); [by apply next_hour_bounds|done|lia|].
    exists counts'. split; [done|]. intros i. rewrite Hc.
    unfold increment. destruct (Z.ltb_spec s 0); [lia|].
    rewrite list_lookup_alter, (onCircle_step s e) by (done || lia).
    destruct (decide (Z.to_nat s = i)) as [<-|Hi].
    + rewrite Z2Nat.id by lia. rewrite Z.eqb_refl.
      assert (onCircle s (Z.rem (s + 1) 24, e) = false) as ->.
      { destruct (next_hour_cases s Hs) as [[-> ?]|[-> ?]];
          unfold onCircle; cbn [fst snd]; cmp. }
      destruct (counts !! Z.to_nat s); simpl; [|done]. f_equal. lia.
    + destruct (Z.eqb_spec (Z.of_nat i) s); [lia|].
      destruct (counts !! i); simpl; [|done]. done.
Qed.

Lemma markHours_circle fuel u s e chartData :
  0 <= s < 24 → 0 <= e < 24 → (24 < fuel)%nat →
  ∃ chartData',
    markHours fuel u s e chartData = Finished chartData'
    ∧ ∀ i, chartData' !! i
           = (λ row, if onCircle (Z.of_nat i) (s, e) then setU u 1 row else row)
               <$> chartData !! i.
Proof.
  intros Hs He Hf.
  assert (∃ n, (e - s) `mod` 24 = Z.of_nat n ∧ (n < fuel)%nat)
    as (n & Hn & Hlt).
  { exists (Z.to_nat ((e - s) `mod` 24)).
    pose proof (Z.mod_pos_bound (e - s) 24 ltac:(lia)). lia. }
  clear Hf. revert fuel s chartData Hs Hn Hlt.
  induction n as [|n IH]; intros [|fuel] s cd Hs Hn Hlt; try lia;
    cbn [markHours].
  - assert (s = e) as -> by (revert Hn; Z.div_mod_to_equations; lia).
    rewrite Z.eqb_refl. exists cd. split; [done|]. intros i.
    rewrite onCircle_empty. by destruct (cd !! i).
  - destruct (steps_left s e n Hs He Hn) as [Hne Hn'].
    destruct (Z.eqb_spec s e); [done|].
    destruct (Z.leb_spec 0 s), (Z.ltb_spec s 24); try lia. cbn [andb].
    destruct (IH fuel (Z.rem (s + 1) 24) (alter (setU u 1) (Z.to_nat s) cd))
      as (cd' & -> & Hc); [by apply next_hour_bounds|done|lia|].
    exists cd'. split; [done|]. intros i. rewrite Hc.
    rewrite list_lookup_alter, (onCircle_step s e) by (done || lia).
    destruct (decide (Z.to_nat s = i)) as [<-|Hi].
    + rewrite Z2Nat.id by lia. rewrite Z.eqb_refl. cbn [orb].
      destruct (cd !! Z.to_nat s); simpl; [|done]. f_equal.
      destruct (onCircle s _); [apply setU_setU|done].
    + destruct (Z.eqb_spec (Z.of_nat i) s); [lia|].
      destruct (cd !! i); simpl; done.
Qed.

Lemma countRanges_circle fuel l counts :
  Forall onDay l → (24 < fuel)%nat →
  ∃ counts',
    countRanges fuel l counts = Some counts'
    ∧ ∀ i, counts' !! i
           = (λ c, c + circleCount (Z.of_nat i) l) <$> counts !! i.
Proof.
  intros Hl Hf. revert counts.
  induction Hl as [|[s e] l [Hs He] _ IH]; intros counts.
  - exists counts. split; [done|]. intros i.
    destruct (counts !! i); simpl; [|done]. f_equal. lia.
  - cbn [countRanges circleCount].
    destruct (countHours_circle fuel s e counts Hs He Hf) as (c1 & -> & Hc1).
    destruct (IH c1) as (c2 & -> & Hc2).
    exists c2. split; [done|]. intros i. rewrite Hc2, Hc1.
    destruct (counts !! i); simpl; [|done]. f_equal. lia.
Qed.

Lemma markRanges_circle fuel u (l : list range) (chartData : list (perUser Z)) :
  Forall onDay l → (24 < fuel)%nat →
  ∃ chartData',
    markRanges fuel u l chartData = Finished chartData'
    ∧ ∀ i, chartData' !! i
           = (λ row, if existsb (onCircle (Z.of_nat i)) l
                     then setU u 1 row else row) <$> chartData !! i.
Proof.
  intros Hl Hf. revert chartData.
  induction Hl as [|[s e] l [Hs He] _ IH]; intros cd.
  - exists cd. split; [done|]. intros i. by destruct (cd !! i).
  - cbn [markRanges existsb].
    destruct (markHours_circle fuel u s e cd Hs He Hf) as (c1 & -> & Hc1).
    destruct (IH c1) as (c2 & -> & Hc2).
    exists c2. split; [done|]. intros i. rewrite Hc2, Hc1.
    destruct (cd !! i); simpl; [|done]. f_equal.
    destruct (onCircle (Z.of_nat i) (s, e)), (existsb _ l); simpl; try done.
    apply setU_setU.
Qed.

(** X14.  For a list of ranges with both hours in 0..23, in any order and
    overlapping or not, the marking loops of the daily view end (each
    within 24 steps) and set the entry of the subject to 1 in exactly the
    rows of the hours that some range visits on the 24-hour clock, from
    its start up to its end, across midnight when the end lies below the
    start; every other entry is left as it was. *)
Theorem daily_marks_follow_the_clock (fuel : nat) (u : userKey)
    (l : list range) (chartData : list (perUser Z)) :
  Forall onDay l → (24 < fuel)%nat →
  ∃ chartData',
    markRanges fuel u l chartData = Finished chartData'
    ∧ ∀ i, chartData' !! i
           = (λ row, if existsb (onCircle (Z.of_nat i)) l
                     then setU u 1 row else row) <$> chartData !! i.
Proof. apply markRanges_circle. Qed.

Lemma daily_marks_follow_the_clock_witness :
  ∃ chartData',
    markRanges 25 baby [(23, 6); (8, 11); (4, 9)] emptyChart
      = Finished chartData'
    ∧ ∀ i, chartData' !! i
           = (λ row, if existsb (onCircle (Z.of_nat i)) [(23, 6); (8, 11); (4, 9)]
                     then setU baby 1 row else row) <$> emptyChart !! i.
Proof.
  apply (daily_marks_follow_the_clock 25 baby [(23, 6); (8, 11); (4, 9)]
           emptyChart).
  - repeat (apply Forall_cons_2; [unfold onDay; simpl; lia|]).
    apply Forall_nil_2.
  - lia.
Defined.

(** X15.  When every list that [getSleepData] returns for the date has
    both hours of each range in 0..23, [updateDataAndRefreshChart] comes
    back with a chart of 24 rows in which the entry of a subject at an hour
    is 1 if one of the subject's ranges visits the hour on the 24-hour
    clock and 0 otherwise; the store is not written to. *)
Theorem refresh_shows_returned_lists (fuel : nat) (date : Z) (st : state) :
  cacheOk st →
  (∀ v, Forall onDay (visible v date st)) →
  (24 < fuel)%nat →
  ∃ st',
    updateDataAndRefreshChart fuel date st = Returns st'
    ∧ store st' = store st
    ∧ length (chart st') = 24%nat
    ∧ ∀ h, (h < 24)%nat →
        chart st' !! h
          = Some (PerUser
                    (Z.b2z (existsb (onCircle (Z.of_nat h)) (visible baby date st)))
                    (Z.b2z (existsb (onCircle (Z.of_nat h)) (visible user1 date st)))
                    (Z.b2z (existsb (onCircle (Z.of_nat h)) (visible user2 date st)))).
Proof.
  intros Hok Hday Hf. unfold updateDataAndRefreshChart. cbn [chartUsers].
  (* baby *)
  destruct (getSleepData_spec baby date st Hok) as (Hext1 & Hok1 & _ & _).
  assert (∀ v, visible v date (getSleepData baby date st).1 = visible v date st)
    as Hv1 by (intros; by apply visible_getSleepData).
  pose proof (Hday baby) as Hb. unfold visible in Hb.
  destruct (getSleepData baby date st) as [st1 l1] eqn:E1. cbn [fst snd] in *.
  destruct (markRanges_circle fuel baby _ emptyChart Hb Hf)
    as (c1 & -> & Hc1).
  (* user1 *)
  destruct (getSleepData_spec user1 date st1 Hok1) as (Hext2 & Hok2 & _ & _).
  assert (∀ v, visible v date (getSleepData user1 date st1).1 = visible v date st)
    as Hv2 by (intros; by rewrite visible_getSleepData).
  pose proof (Hday user1) as H1. rewrite <- Hv1 in H1. unfold visible in H1.
  destruct (getSleepData user1 date st1) as [st2 l2] eqn:E2. cbn [fst snd] in *.
  destruct (markRanges_circle fuel user1 _ c1 H1 Hf)
    as (c2 & -> & Hc2).
  (* user2 *)
  destruct (getSleepData_spec user2 date st2 Hok2) as (Hext3 & Hok3 & _ & _).
  pose proof (Hday user2) as H2. rewrite <- Hv2 in H2. unfold visible in H2.
  destruct (getSleepData user2 date st2) as [st3 l3] eqn:E3. cbn [fst snd] in *.
  destruct (markRanges_circle fuel user2 _ c2 H2 Hf)
    as (c3 & -> & Hc3).
  exists (setChart c3 st3). split; [done|].
  assert (deref (cells st1) l1 = visible baby date st) as Eb.
  { unfold visible. by rewrite E1. }
  assert (deref (cells st2) l2 = visible user1 date st) as Eu1.
  { rewrite <- Hv1. unfold visible. by rewrite E2. }
  assert (deref (cells st3) l3 = visible user2 date st) as Eu2.
  { rewrite <- Hv2. unfold visible. by rewrite E3. }
  rewrite Eb in Hc1. rewrite Eu1 in Hc2. rewrite Eu2 in Hc3.
  split_and!.
  - cbn [store setChart].
    by rewrite (ext_store _ _ Hext3), (ext_store _ _ Hext2), (ext_store _ _ Hext1).
  - cbn [chart setChart].
    assert (∀ (a b : list (perUser Z)) (g : nat → perUser Z → perUser Z),
              (∀ i, a !! i = g i <$> b !! i) → length a = length b) as Hlen'.
    { intros a b g Hab. apply Nat.le_antisymm.
      - destruct (Nat.le_gt_cases (length a) (length b)) as [|Hlt]; [done|].
        destruct (lookup_lt_is_Some_2 a (length b) Hlt) as [x Hx].
        rewrite Hab, (lookup_ge_None_2 b (length b)) in Hx by lia. done.
      - destruct (Nat.le_gt_cases (length b) (length a)) as [|Hlt]; [done|].
        destruct (lookup_lt_is_Some_2 b (length a) Hlt) as [x Hx].
        specialize (Hab (length a)).
        rewrite Hx, (lookup_ge_None_2 a (length a)) in Hab by lia. done. }
    rewrite (Hlen' _ _ _ Hc3), (Hlen' _ _ _ Hc2), (Hlen' _ _ _ Hc1).
    apply length_replicate.
  - intros h Hh. cbn [chart setChart]. rewrite Hc3, Hc2, Hc1.
    unfold emptyChart. rewrite lookup_replicate_2 by done. cbn [fmap option_fmap option_map].
    by destruct (existsb _ (visible baby date st)),
      (existsb _ (visible user1 date st)), (existsb _ (visible user2 date st)).
Qed.

Lemma refresh_shows_returned_lists_witness :
  ∃ st',
    updateDataAndRefreshChart 25 0 (setStore generatedStore emptyState)
      = Returns st'
    ∧ store st' = store (setStore generatedStore emptyState)
    ∧ length (chart st') = 24%nat
    ∧ ∀ h, (h < 24)%nat →
        chart st' !! h
          = Some (PerUser
                    (Z.b2z (existsb (onCircle (Z.of_nat h))
                              (visible baby 0 (setStore generatedStore emptyState))))
                    (Z.b2z (existsb (onCircle (Z.of_nat h))
                              (visible user1 0 (setStore generatedStore emptyState))))
                    (Z.b2z (existsb (onCircle (Z.of_nat h))
                              (visible user2 0 (setStore generatedStore emptyState))))).
Proof.
  apply (refresh_shows_returned_lists 25 0 (setStore generatedStore emptyState)).
  - exact cacheOk_emptyState.
  - intros [].
    + change (Forall onDay [(9, 12); (9, 12); (9, 12); (9, 12)]).
      repeat (apply Forall_cons_2; [unfold onDay; simpl; lia|]).
      apply Forall_nil_2.
    + change (Forall onDay [(23, 6)]).
      repeat (apply Forall_cons_2; [unfold onDay; simpl; lia|]).
      apply Forall_nil_2.
    + change (Forall onDay [(23, 6)]).
      repeat (apply Forall_cons_2; [unfold onDay; simpl; lia|]).
      apply Forall_nil_2.
  - lia.
Defined.

(** ** Aggregation round the clock *)

Lemma countUser_circle fuel rec u sleepCounts :
  (24 < fuel)%nat →
  Forall onDay (default [] (getU u rec)) →
  ∃ sleepCounts',
    countUser fuel rec u sleepCounts = Some sleepCounts'
    ∧ (∀ i, getU u sleepCounts' !! i
            = (λ c, c + circleCount (Z.of_nat i) (default [] (getU u rec)))
                <$> getU u sleepCounts !! i)
    ∧ (∀ v, v ≠ u → getU v sleepCounts' = getU v sleepCounts).
Proof.
  intros Hf Hl. unfold countUser. destruct (getU u rec) as [l|]; simpl in *.
  - destruct (countRanges_circle fuel l (getU u sleepCounts) Hl Hf)
      as (c & -> & Hc).
    eexists. split; [done|]. split.
    + intros i. by rewrite getU_setU.
    + intros v Hv. by rewrite getU_setU_ne.
  - exists sleepCounts. split; [done|]. split; [|done].
    intros i. destruct (getU u sleepCounts !! i); simpl; [|done]. f_equal. lia.
Qed.

Lemma countDay_circle fuel (s : gmap Z dayRecord) date sleepCounts :
  (24 < fuel)%nat →
  (∀ v, Forall onDay (rangesOn s v date)) →
  ∃ sleepCounts',
    countDay fuel (s !! date) sleepCounts = Some sleepCounts'
    ∧ ∀ u i, getU u sleepCounts' !! i
             = (λ c, c + circleCount (Z.of_nat i) (rangesOn s u date))
                 <$> getU u sleepCounts !! i.
Proof.
  intros Hf Hs. unfold rangesOn in *. unfold countDay.
  destruct (s !! date) as [rec|]; simpl in *.
  - destruct (countUser_circle fuel rec baby sleepCounts Hf (Hs baby))
      as (c1 & -> & Hb & Hb').
    destruct (countUser_circle fuel rec user1 c1 Hf (Hs user1))
      as (c2 & -> & H1 & H1').
    destruct (countUser_circle fuel rec user2 c2 Hf (Hs user2))
      as (c3 & -> & H2 & H2').
    exists c3. split; [done|]. intros [] i.
    + by rewrite (H2' baby), (H1' baby), Hb.
    + by rewrite (H2' user1), H1, (Hb' user1).
    + by rewrite H2, (H1' user2), (Hb' user2).
  - exists sleepCounts. split; [done|]. intros u i.
    destruct (getU u sleepCounts !! i); simpl; [|done]. f_equal. lia.
Qed.

Lemma countDays_circle fuel (s : gmap Z dayRecord) endDate n sleepCounts :
  (24 < fuel)%nat →
  (∀ i u, (i < n)%nat → Forall onDay (rangesOn s u (endDate - Z.of_nat i))) →
  ∃ sleepCounts',
    countDays fuel s endDate n sleepCounts = Some sleepCounts'
    ∧ ∀ u h, getU u sleepCounts' !! h
             = (λ c, c + windowCount s u endDate n (Z.of_nat h))
                 <$> getU u sleepCounts !! h.
Proof.
  intros Hf. revert sleepCounts.
  induction n as [|n IH]; intros counts Hw.
  - exists counts. split; [done|]. intros u h.
    destruct (getU u counts !! h); simpl; [|done]. f_equal. lia.
  - cbn [countDays windowCount].
    destruct (countDay_circle fuel s (endDate - Z.of_nat n) counts Hf)
      as (c1 & -> & Hc1).
    { intros v. apply Hw. lia. }
    destruct (IH c1) as (c2 & -> & Hc2).
    { intros i u Hi. apply Hw. lia. }
    exists c2. split; [done|]. intros u h. rewrite Hc2, Hc1.
    destruct (getU u counts !! h); simpl; [|done]. f_equal. lia.
Qed.

(** X16.  When every stored range of the days in question has both hours
    in 0..23, [getSleepDataForRange] comes back, and each count is the
    number of ranges, over those days, that visit the hour on the 24-hour
    clock: a range across midnight counts for the hours on both sides, and
    ranges of one day that overlap are counted once each. *)
Theorem aggregate_counts_ranges_on_the_clock (fuel : nat)
    (s : gmap Z dayRecord) (endDate : Z) (n : nat) :
  (24 < fuel)%nat →
  (∀ i u, (i < n)%nat → Forall onDay (rangesOn s u (endDate - Z.of_nat i))) →
  ∃ sleepCounts,
    getSleepDataForRange fuel s endDate n = Some sleepCounts
    ∧ ∀ u h, (h < 24)%nat →
        getU u sleepCounts !! h = Some (windowCount s u endDate n (Z.of_nat h)).
Proof.
  intros Hf Hw. unfold getSleepDataForRange.
  destruct (countDays_circle fuel s endDate n (PerUser zeros zeros zeros) Hf Hw)
    as (counts & -> & Hc).
  exists counts. split; [done|]. intros u h Hh. rewrite Hc.
  assert (getU u (PerUser zeros zeros zeros) !! h = Some 0) as ->.
  { destruct u; exact (lookup_replicate_2 24 0 h Hh). }
  reflexivity.
Qed.

Lemma generatedStore_onDay i u :
  (i < 7)%nat → Forall onDay (rangesOn generatedStore u (0 - Z.of_nat i)).
Proof.
  intros Hi.
  do 7 (destruct i as [|i];
        [destruct u;
         match goal with
         | |- Forall _ ?l => let l' := eval vm_compute in l in change l with l'
         end;
         repeat (apply Forall_cons_2; [unfold onDay; simpl; lia|]);
         apply Forall_nil_2|]).
  lia.
Qed.

Lemma aggregate_counts_ranges_on_the_clock_witness :
  ∃ sleepCounts,
    getSleepDataForRange 25 generatedStore 0 7 = Some sleepCounts
    ∧ ∀ u h, (h < 24)%nat →
        getU u sleepCounts !! h
          = Some (windowCount generatedStore u 0 7 (Z.of_nat h)).
Proof.
  apply (aggregate_counts_ranges_on_the_clock 25 generatedStore 0 7).
  - lia.
  - intros i u Hi. by apply generatedStore_onDay.
Defined.

(** With the generated lists the counts pass the number of days: the four
    ranges of a day may coincide, and each of them is counted. *)
Example generated_week_counts :
  getSleepDataForRange 25 generatedStore 0 7
    = Some (PerUser
              (replicate 9 0 ++ [28; 28; 28] ++ replicate 12 0)
              ([7; 7; 7; 7; 7; 7] ++ replicate 17 0 ++ [7])
              ([7; 7; 7; 7; 7; 7] ++ replicate 17 0 ++ [7])).
Proof. vm_compute. reflexivity. Qed.

(** ** Counts and the number of days *)

Lemma sumOccupancy_bound fuel (s : gmap Z dayRecord) endDate n u h :
  (24 < fuel)%nat → (h < 24)%nat → windowBefore24 s endDate n →
  ∃ total, sumOccupancy fuel s endDate n u h = Some total
           ∧ 0 <= total <= Z.of_nat n.
Proof.
  intros Hf Hh. induction n as [|n IH]; intros Hw.
  - exists 0. split; [done|]. lia.
  - cbn [sumOccupancy].
    rewrite (occupancyAt_covered fuel s _ u h Hf Hh)
      by (intros v; apply Hw; lia).
    destruct IH as (total & -> & Ht).
    { intros i v Hi. apply Hw. lia. }
    eexists. split; [done|].
    destruct (covered (Z.of_nat h) (rangesOn s u (endDate - Z.of_nat n)));
      simpl; lia.
Qed.

(** X17.  When the lists of the days in question satisfy the invariant
    and keep below hour 24, no count of [getSleepDataForRange] is negative
    or above the number of days: a subject is counted at most once per
    day and hour. *)
Theorem counts_within_number_of_days (fuel : nat) (s : gmap Z dayRecord)
    (endDate : Z) (n : nat) :
  (24 < fuel)%nat → windowBefore24 s endDate n →
  ∃ sleepCounts,
    getSleepDataForRange fuel s endDate n = Some sleepCounts
    ∧ ∀ u h, (h < 24)%nat →
        ∃ c, getU u sleepCounts !! h = Some c ∧ 0 <= c <= Z.of_nat n.
Proof.
  intros Hf Hw.
  destruct (aggregate_sums_occupancy fuel s endDate n Hf Hw)
    as (counts & Hrun & Hc).
  exists counts. split; [done|]. intros u h Hh.
  destruct (sumOccupancy_bound fuel s endDate n u h Hf Hh Hw) as (c & Hs & Hb).
  exists c. by rewrite <- Hc, Hs.
Qed.

Lemma windowBefore24_napWeek : windowBefore24 napWeek 6 7.
Proof.
  intros i u Hi. pose proof (napWeek_lookup i Hi) as Hrec.
  unfold rangesOn, dayRecord in *. rewrite Hrec.
  destruct u; simpl; split; try (split; repeat constructor; simpl; lia);
    repeat constructor; simpl; lia.
Qed.

Lemma counts_within_number_of_days_witness :
  ∃ sleepCounts,
    getSleepDataForRange 25 napWeek 6 7 = Some sleepCounts
    ∧ ∀ u h, (h < 24)%nat →
        ∃ c, getU u sleepCounts !! h = Some c ∧ 0 <= c <= Z.of_nat 7.
Proof.
  apply (counts_within_number_of_days 25 napWeek 6 7).
  - lia.
  - exact windowBefore24_napWeek.
Defined.

(** ** A toggle seen from the aggregation *)

(** X18.  A toggle never reaches the aggregation: its write throws, so
    whenever the call comes back, [getSleepDataForRange] gives for every
    end date and number of days what it gave before the call, while the
    list that the daily view reads from the cache may have changed. *)
Theorem toggle_never_moves_counts (fuel fuel' : nat) (u : userKey)
    (hour date : Z) (endDate : Z) (n : nat) (st st' : state) (v : jsValue) :
  cacheOk st →
  toggleSleepHour fuel false (keyName u) hour date st = Some (st', v) →
  getSleepDataForRange fuel' (store st') endDate n
    = getSleepDataForRange fuel' (store st) endDate n.
Proof.
  intros Hok Hcall.
  by destruct (failed_write_keeps_store fuel u hour date st st' v Hok Hcall)
    as [-> _].
Qed.

Lemma toggle_never_moves_counts_witness :
  ∃ st',
    toggleSleepHour 25 false (keyName baby) 1 3 (setStore napWeek emptyState)
      = Some (st', JsUndefined)
    ∧ visible baby 3 (setStore napWeek emptyState) = [(0, 2)]
    ∧ visible baby 3 st' = [(0, 1)]
    ∧ getSleepDataForRange 25 (store st') 6 7
      = getSleepDataForRange 25 (store (setStore napWeek emptyState)) 6 7.
Proof.
  destruct (toggleSleepHour 25 false (keyName baby) 1 3
              (setStore napWeek emptyState))
    as [[st' v]|] eqn:Hcall; [|by vm_compute in Hcall].
  assert (v = JsUndefined) as -> by (by eapply toggleSleepHour_undefined).
  exists st'. split; [done|].
  pose proof (toggle_never_moves_counts 25 25 baby 1 3 6 7
                (setStore napWeek emptyState) st' JsUndefined
                cacheOk_emptyState Hcall) as Hsame.
  assert (Some (st', JsUndefined)
          = toggleSleepHour 25 false (keyName baby) 1 3
              (setStore napWeek emptyState)) as Hst' by done.
  vm_compute in Hst'. injection Hst' as ->.
  split_and!; [reflexivity..|exact Hsame].
Defined.

(** ** Hour labels *)

(** X19.  The label of each of the 24 chart rows has two characters, and
    [parseInt], which the click handlers apply to the label of the column
    that was hit, gives back the row's hour. *)
Theorem hour_label_parses_back (h : nat) (label : string) :
  Labels.hourLabels !! h = Some label →
  String.length label = 2%nat ∧ Labels.parseInt label = Some (Z.of_nat h).
Proof.
  intros Hl. assert (h < 24)%nat as Hh.
  { apply lookup_lt_Some in Hl. exact Hl. }
  do 24 (destruct h as [|h]; [injection Hl as <-; split; reflexivity|]).
  lia.
Qed.

Lemma hour_label_parses_back_witness :
  Labels.hourLabels !! 8%nat = Some "08"
  ∧ String.length "08" = 2%nat ∧ Labels.parseInt "08" = Some 8.
Proof.
  split; [reflexivity|].
  exact (hour_label_parses_back 8 "08" eq_refl).
Defined.
